(** * Monte Carlo runner of the kill-line simulator (mc_sim.py)

    A shallow embedding of [mc_sim.py] and the properties its
    specification states about it.

    Conventions of the embedding.
    - Python [int] is [Z].  Python [float] is idealised as an exact
      rational [Q]: rounding error, infinities and NaN are outside the
      model.  [int(round(x))] is round-half-to-even, as in Python 3.
    - [math.exp] and the float power [**] are library functions; they are
      fields of the class [Libm].  The module-level generator of [random]
      is the class [RandomGen]; its state is threaded explicitly.
    - A [dict] whose iteration order is observable (effects, the active
      conditions, the tag weights) is an association list in insertion
      order; a [dict] that is only looked up or counted (the pools, the
      state index, the seen and trigger counters) is a [gmap].
    - A Python exception is a [Raise] result.  The catalogs and the
      configuration are records, so a missing field cannot occur; the
      [KeyError]s that remain are the lookups by a computed key. *)

From Stdlib Require Import ZArith QArith Qround Qminmax String List Lia Lqa.
From stdpp Require Import gmap strings list fin_maps.
Import ListNotations.
Local Open Scope string_scope.
Local Open Scope list_scope.
Local Open Scope Z_scope.

(** ** Exceptions *)

Inductive exn : Type :=
| KeyError (key : string)
| IndexError.

Inductive result (A : Type) : Type :=
| Ok (a : A)
| Raise (e : exn).
Arguments Ok {A} a.
Arguments Raise {A} e.

(** Exceptions propagate through stdpp's monadic bind: [x ← r; k]. *)
#[global] Instance result_ret : MRet result := fun A a => Ok a.
#[global] Instance result_bind : MBind result := fun A B k r =>
  match r with
  | Ok a => k a
  | Raise e => Raise e
  end.

Definition from_option {A : Type} (e : exn) (o : option A) : result A :=
  match o with
  | Some a => Ok a
  | None => Raise e
  end.

(** ** Insertion-ordered dictionaries *)

Module Dict.
Section Ops.
Context {V : Type}.

Fixpoint get (k : string) (d : list (string * V)) : option V :=
  match d with
  | [] => None
  | (k', v) :: rest => if String.eqb k k' then Some v else get k rest
  end.

Definition mem (k : string) (d : list (string * V)) : bool :=
  match get k d with Some _ => true | None => false end.

(** [d[k] = v]: an existing key keeps its place, a new key goes last. *)
Fixpoint set (k : string) (v : V) (d : list (string * V)) : list (string * V) :=
  match d with
  | [] => [(k, v)]
  | (k', v') :: rest =>
      if String.eqb k k' then (k', v) :: rest else (k', v') :: set k v rest
  end.

Definition setdefault (k : string) (v : V) (d : list (string * V)) : list (string * V) :=
  if mem k d then d else d ++ [(k, v)].

(** [d.pop(k, None)] *)
Fixpoint pop (k : string) (d : list (string * V)) : list (string * V) :=
  match d with
  | [] => []
  | (k', v') :: rest =>
      if String.eqb k k' then rest else (k', v') :: pop k rest
  end.

Definition keys (d : list (string * V)) : list string := map fst d.
Definition values (d : list (string * V)) : list V := map snd d.
End Ops.
End Dict.

(** [k in [...]] on a list of names *)
Definition name_in (k : string) (l : list string) : bool :=
  existsb (String.eqb k) l.

(** ** Stats *)

(** [simulate_one] creates the stats with exactly these five keys and no
    function adds or removes one. *)
Record Stats : Type := mkStats {
  money : Z;
  health : Z;
  stress : Z;
  family : Z;
  friendship : Z
}.

Definition stats_get (k : string) (s : Stats) : option Z :=
  if String.eqb k "money" then Some (money s)
  else if String.eqb k "health" then Some (health s)
  else if String.eqb k "stress" then Some (stress s)
  else if String.eqb k "family" then Some (family s)
  else if String.eqb k "friendship" then Some (friendship s)
  else None.

Definition stats_set (k : string) (v : Z) (s : Stats) : Stats :=
  if String.eqb k "money" then mkStats v (health s) (stress s) (family s) (friendship s)
  else if String.eqb k "health" then mkStats (money s) v (stress s) (family s) (friendship s)
  else if String.eqb k "stress" then mkStats (money s) (health s) v (family s) (friendship s)
  else if String.eqb k "family" then mkStats (money s) (health s) (stress s) v (friendship s)
  else if String.eqb k "friendship" then mkStats (money s) (health s) (stress s) (family s) v
  else s.

Definition clamp (v lo hi : Z) : Z := Z.max lo (Z.min hi v).

Definition clamped_attrs : list string := ["health"; "stress"; "family"; "friendship"].

(** One iteration of the loop of [apply_effects]. *)
Definition apply_effect (s : Stats) (kdv : string * Z) : Stats :=
  let '(k, dv) := kdv in
  match stats_get k s with
  | None => s
  | Some v =>
      let s1 := stats_set k (v + dv) s in
      if name_in k clamped_attrs then stats_set k (clamp (v + dv) 0 100) s1 else s1
  end.

Definition apply_effects (s : Stats) (effects : list (string * Z)) : Stats :=
  fold_left apply_effect effects s.

(** ** Library functions *)

(** [int(round(x))]: Python 3 rounds a half to the even neighbour. *)
Definition py_round (x : Q) : Z :=
  let f := Qfloor x in
  match Qcompare (x - inject_Z f) (1 # 2) with
  | Lt => f
  | Gt => f + 1
  | Eq => if Z.even f then f else f + 1
  end.

(** [math.exp] and the float operator [**]. *)
Class Libm : Type := {
  math_exp : Q -> Q;
  float_pow : Q -> Q -> Q
}.

(** The module-level generator of [random]: [random.seed], [random.random]
    and the [_randbelow] step behind [random.choice].  Seeding with an
    integer replaces the state of the generator, whatever it was. *)
Class RandomGen : Type := {
  rng : Type;
  random_seed : Z -> rng -> rng;
  random_seed_resets : forall seed g1 g2, random_seed seed g1 = random_seed seed g2;
  random_random : rng -> Q * rng;
  random_randbelow : nat -> rng -> nat * rng;
  random_random_range : forall g, (0 <= fst (random_random g))%Q /\ (fst (random_random g) < 1)%Q;
  random_randbelow_lt : forall n g, (0 < n)%nat -> (fst (random_randbelow n g) < n)%nat
}.

(** ** Catalogs and configuration (already parsed JSON) *)

Record MonthlyPassive : Type := {
  mp_health_base_regen : Q;
  mp_stress_base_decay : Q;
  mp_relationship_base_regen : Q
}.

Record Recovery : Type := {
  rec_alpha : Q;
  rec_soft_floor : Q;
  rec_monthly_passive : MonthlyPassive
}.

Record Economy : Type := {
  eco_rent : Q;
  eco_inflation_per_year : option Q;
  eco_wage_growth_per_year : option Q
}.

Record Balance : Type := {
  bal_pos_money_mult : Q;
  bal_neg_money_mult : Q;
  bal_stress_mult : Q
}.

Record DrawCfg : Type := {
  draw_anti_repeat_beta : Q;
  draw_recent_window : Z;
  draw_recent_penalty : Q
}.

Record Thresholds : Type := {
  thr_money_hard : Z;
  thr_eviction_months : Z;
  thr_collections_strikes : Z
}.

Record Config : Type := {
  cfg_attrs_start : Stats;          (* cfg["attrs"][k]["start"] *)
  cfg_recovery : Recovery;
  cfg_economy : Economy;
  cfg_balance : Balance;
  cfg_draw : DrawCfg;
  cfg_thresholds : Thresholds;
  cfg_max_months : Z;
  cfg_turns_per_month : Z
}.

Record StateDef : Type := {
  sd_id : string;
  sd_type : string;
  sd_duration : option Z;           (* absent or null: indefinite *)
  sd_stacking : option string;
  sd_monthly_effect : list (string * Z)
}.

Record Choice : Type := {
  ch_effects : list (string * Z);
  ch_action : option string;
  ch_add_states : list string;
  ch_remove_states : list string
}.

Record Event : Type := {
  ev_id : string;
  ev_primary_tag : string;
  ev_base_weight : option Q;
  ev_choices : list Choice
}.

(** The active conditions: id to remaining periods ([None]: indefinite). *)
Abbreviation Active := (list (string * option Z)).

Definition TAGS : list string :=
  ["job"; "debt"; "housing"; "health"; "social"; "admin"; "car"; "money"].

Definition qclamp (v lo hi : Q) : Q := Qmax lo (Qmin hi v).

Section Scaling.
Context {lm : Libm}.

Definition effective_gain (base_gain : Q) (stat_value : Z) (cfg : Config) : Q :=
  if Qle_bool base_gain 0 then base_gain
  else
    let alpha := rec_alpha (cfg_recovery cfg) in
    let floor := rec_soft_floor (cfg_recovery cfg) in
    let penalty := Qmax 0 (floor - inject_Z stat_value) in
    (base_gain * math_exp (- alpha * penalty))%Q.

Definition cost_factor (month : Z) (cfg : Config) : Q :=
  let infl := default 0%Q (eco_inflation_per_year (cfg_economy cfg)) in
  float_pow (1 + infl)%Q (inject_Z month / 12)%Q.

Definition wage_factor (month : Z) (cfg : Config) : Q :=
  let wg := default 0%Q (eco_wage_growth_per_year (cfg_economy cfg)) in
  float_pow (1 + wg)%Q (inject_Z month / 12)%Q.

Definition monthly_passive (stats : Stats) (cfg : Config) : Stats :=
  let mp := rec_monthly_passive (cfg_recovery cfg) in
  let base_h := (mp_health_base_regen mp * (1 - inject_Z (stress stats) / 140))%Q in
  let dh := effective_gain base_h (health stats) cfg in
  let base_s := (mp_stress_base_decay mp
                 * (0.6 + inject_Z (health stats) / 140 + inject_Z (friendship stats) / 250))%Q in
  let ds := (- base_s)%Q in
  let base_r := (mp_relationship_base_regen mp * (1 - inject_Z (stress stats) / 140))%Q in
  let dr := effective_gain base_r (family stats) cfg in
  let df := effective_gain base_r (friendship stats) cfg in
  apply_effects stats [("health", py_round dh); ("stress", py_round ds);
                       ("family", py_round dr); ("friendship", py_round df)].
End Scaling.

(** ** Condition registry operations *)

Definition add_state (active : Active) (sdef : StateDef) : Active :=
  let sid := sd_id sdef in
  if String.eqb (sd_type sdef) "counter" then Dict.setdefault sid None active
  else
    match sd_duration sdef with
    | None => Dict.setdefault sid None active
    | Some dur =>
        match Dict.get sid active with
        | Some rem =>
            let behavior := default "refresh" (sd_stacking sdef) in
            match rem with
            | Some r =>
                if String.eqb behavior "extend"
                then Dict.set sid (Some (r + dur)) active
                else Dict.set sid (Some dur) active
            | None => Dict.set sid (Some dur) active
            end
        | None => Dict.set sid (Some dur) active
        end
    end.

Definition remove_state (active : Active) (sid : string) : Active :=
  Dict.pop sid active.

(** One [w[t] *= mult], guarded by [t in w]. *)
Definition scale_tag (w : list (string * Q)) (tm : string * Q) : list (string * Q) :=
  let '(t, mult) := tm in
  match Dict.get t w with
  | Some x => Dict.set t (x * mult)%Q w
  | None => w
  end.

Definition tag_weights (active_states : Active)
    (state_tag_mult : list (string * list (string * Q))) : list (string * Q) :=
  let w0 := map (fun t => (t, 1%Q)) TAGS in
  let w1 :=
    fold_left
      (fun w sid =>
         match Dict.get sid state_tag_mult with
         | None => w
         | Some mods => fold_left scale_tag mods w
         end)
      (Dict.keys active_states) w0 in
  map (fun tw => (fst tw, qclamp (snd tw) 0.75 1.55)) w1.

(** ** Event drawer *)

(** [l[-n:]] for a positive [n] *)
Definition last_n {A : Type} (n : Z) (l : list A) : list A :=
  skipn (length l - Z.to_nat n) l.

(** The loop of [weighted_choice]: the first item at which the running
    sum reaches [r]. *)
Fixpoint wc_scan {A : Type} (r acc : Q) (pairs : list (A * Q)) : option A :=
  match pairs with
  | [] => None
  | (it, w) :: rest =>
      let acc' := (acc + w)%Q in
      if Qle_bool r acc' then Some it else wc_scan r acc' rest
  end.

Definition py_sum (weights : list Q) : Q := fold_left Qplus weights 0%Q.

Section Drawing.
Context {lm : Libm} {rg : RandomGen}.

Definition weighted_choice {A : Type} (items : list A) (weights : list Q) (g : rng)
    : result (A * rng) :=
  let total := py_sum weights in
  let '(u, g') := random_random g in
  let r := (u * total)%Q in
  match wc_scan r 0%Q (zip items weights) with
  | Some it => Ok (it, g')
  | None => it ← from_option IndexError (last items); Ok (it, g')
  end.

(** [random.choice(seq)] *)
Definition random_choice {A : Type} (seq : list A) (g : rng) : result (A * rng) :=
  match seq with
  | [] => Raise IndexError
  | _ =>
      let '(i, g') := random_randbelow (length seq) g in
      x ← from_option IndexError (seq !! i); Ok (x, g')
  end.

(** One [pools[ev["primary_tag"]].append(ev)] on the [defaultdict]. *)
Definition pool_step (pools : gmap string (list Event)) (ev : Event)
    : gmap string (list Event) :=
  <[ev_primary_tag ev := (default [] (pools !! ev_primary_tag ev) ++ [ev])%list]> pools.

Definition build_pools (events : list Event) : gmap string (list Event) :=
  fold_left pool_step events ∅.

(** The weight [draw_event] gives one candidate of the pool. *)
Definition candidate_weight (seen_counts : gmap string Z) (recent_set : list string)
    (cfg : Config) (ev : Event) : Q :=
  let beta := draw_anti_repeat_beta (cfg_draw cfg) in
  let recent_penalty := draw_recent_penalty (cfg_draw cfg) in
  let sid := ev_id ev in
  let seen := default 0 (seen_counts !! sid) in
  let w := (default 1%Q (ev_base_weight ev) / float_pow (1 + inject_Z seen) beta)%Q in
  if name_in sid recent_set then (w * recent_penalty)%Q else w.

Definition recent_set_of (recent_list : list string) (cfg : Config) : list string :=
  let recent_window := draw_recent_window (cfg_draw cfg) in
  if 0 <? recent_window then last_n recent_window recent_list else [].

Definition draw_event (pools : gmap string (list Event)) (active_states : Active)
    (seen_counts : gmap string Z) (recent_list : list string) (cfg : Config)
    (state_tag_mult : list (string * list (string * Q))) (g : rng)
    : result (Event * rng) :=
  let tw := tag_weights active_states state_tag_mult in
  '(tag, g1) ← weighted_choice (Dict.keys tw) (Dict.values tw) g;
  pool ← from_option (KeyError tag) (pools !! tag);
  let recent_set := recent_set_of recent_list cfg in
  let candidates := pool in
  let weights := map (candidate_weight seen_counts recent_set cfg) pool in
  weighted_choice candidates weights g1.
End Drawing.

(** ** Effect application for choices and for monthly condition effects *)

(** [stats[k]] for a key of the stats *)
Definition attr (k : string) (s : Stats) : Z := default 0 (stats_get k s).

Definition recoverable_attrs : list string := ["health"; "family"; "friendship"].

Fixpoint fold_result {A B : Type} (f : A -> B -> result A) (l : list B) (a : A) : result A :=
  match l with
  | [] => Ok a
  | b :: rest => a' ← f a b; fold_result f rest a'
  end.

Section Effects.
Context {lm : Libm}.

(** The dictionary [eff] that [apply_choice] hands to [apply_effects]. *)
Definition choice_effects (stats : Stats) (ch : Choice) (active : Active)
    (cfg : Config) (month : Z) : list (string * Z) :=
  let eff := ch_effects ch in
  let cf := cost_factor month cfg in
  let wf := wage_factor month cfg in
  let eff :=
    match ch_action ch with
    | Some a =>
        if String.eqb a "PAY_RENT" then
          let rent := py_round (eco_rent (cfg_economy cfg) * cf) in
          Dict.set "money" (default 0 (Dict.get "money" eff) - rent) eff
        else eff
    | None => eff
    end in
  let eff :=
    fold_left
      (fun eff k =>
         match Dict.get k eff with
         | Some v =>
             if 0 <? v
             then Dict.set k (py_round (effective_gain (inject_Z v) (attr k stats) cfg)) eff
             else eff
         | None => eff
         end)
      recoverable_attrs eff in
  let eff :=
    match Dict.get "money" eff with
    | Some m =>
        let m' :=
          if 0 <? m then
            let m1 := (inject_Z m * bal_pos_money_mult (cfg_balance cfg) * wf)%Q in
            if Dict.mem "S_HIGH_INTEREST_LOAN" active then (m1 * 0.85)%Q else m1
          else (inject_Z m * bal_neg_money_mult (cfg_balance cfg) * cf)%Q in
        Dict.set "money" (py_round m') eff
    | None => eff
    end in
  match Dict.get "stress" eff with
  | Some s => Dict.set "stress" (py_round (inject_Z s * bal_stress_mult (cfg_balance cfg))) eff
  | None => eff
  end.

Definition apply_choice (stats : Stats) (ch : Choice) (active : Active) (counters : Z)
    (cfg : Config) (month : Z) (state_index : gmap string StateDef)
    : result (Stats * Active * Z) :=
  let stats := apply_effects stats (choice_effects stats ch active cfg month) in
  active ←
    fold_result
      (fun active sid =>
         sdef ← from_option (KeyError sid) (state_index !! sid);
         Ok (add_state active sdef))
      (ch_add_states ch) active;
  Ok (fold_left
        (fun '(stats, active, counters) sid =>
           (stats, remove_state active sid,
            if String.eqb sid "S_RENT_ARREARS" then 0 else counters))
        (ch_remove_states ch) (stats, active, counters)).

(** The body of the first loop of [apply_state_monthly]: one [eff2[k] = ...];
    [loan] is ["S_HIGH_INTEREST_LOAN" in active_states]. *)
Definition monthly_entry (stats : Stats) (cfg : Config) (loan : bool)
    (eff2 : list (string * Z)) (kv : string * Z) : list (string * Z) :=
  let '(k, v) := kv in
  if name_in k recoverable_attrs && (0 <? v) then
    Dict.set k (py_round (effective_gain (inject_Z v) (attr k stats) cfg)) eff2
  else if String.eqb k "money" && (0 <? v) && loan then
    Dict.set k (py_round (inject_Z v * 0.85)) eff2
  else Dict.set k v eff2.

(** The dictionary [eff2] that [apply_state_monthly] hands to
    [apply_effects] for one condition. *)
Definition monthly_effects (stats : Stats) (sdef : StateDef) (active_states : Active)
    (cfg : Config) (month : Z) : list (string * Z) :=
  let cf := cost_factor month cfg in
  let wf := wage_factor month cfg in
  let eff := sd_monthly_effect sdef in
  let eff2 :=
    fold_left (monthly_entry stats cfg (Dict.mem "S_HIGH_INTEREST_LOAN" active_states))
      eff [] in
  let eff2 :=
    match Dict.get "money" eff2 with
    | Some m =>
        if 0 <? m
        then Dict.set "money"
               (py_round (inject_Z m * bal_pos_money_mult (cfg_balance cfg) * wf)) eff2
        else Dict.set "money"
               (py_round (inject_Z m * bal_neg_money_mult (cfg_balance cfg) * cf)) eff2
    | None => eff2
    end in
  match Dict.get "stress" eff2 with
  | Some s => Dict.set "stress" (py_round (inject_Z s * bal_stress_mult (cfg_balance cfg))) eff2
  | None => eff2
  end.

(** The body of the loop of [apply_state_monthly] for the condition [sid]. *)
Definition state_monthly_step (cfg : Config) (month : Z)
    (state_index : gmap string StateDef) (st : Stats * Active * Z) (sid : string)
    : result (Stats * Active * Z) :=
  let '(stats, active_states, counters) := st in
  sdef ← from_option (KeyError sid) (state_index !! sid);
  let stats :=
    if String.eqb sid "S_PAYCHECK" && Dict.mem "S_LAYOFF" active_states then stats
    else apply_effects stats (monthly_effects stats sdef active_states cfg month) in
  if String.eqb (sd_type sdef) "counter" then
    Ok (stats, active_states,
        if String.eqb sid "S_RENT_ARREARS" then counters + 1 else counters)
  else
    entry ← from_option (KeyError sid) (Dict.get sid active_states);
    match entry with
    | Some rem =>
        let rem := rem - 1 in
        if rem <=? 0 then Ok (stats, Dict.pop sid active_states, counters)
        else Ok (stats, Dict.set sid (Some rem) active_states, counters)
    | None => Ok (stats, active_states, counters)
    end.

Definition apply_state_monthly (stats : Stats) (active_states : Active) (counters : Z)
    (cfg : Config) (month : Z) (state_index : gmap string StateDef)
    : result (Stats * Active * Z) :=
  fold_result (state_monthly_step cfg month state_index)
    (Dict.keys active_states) (stats, active_states, counters).

(** [month_end_rent] takes [counters] too and does not use it. *)
Definition month_end_rent (stats : Stats) (active : Active) (cfg : Config) (month : Z)
    (state_index : gmap string StateDef) : result (Stats * Active) :=
  let rent := py_round (eco_rent (cfg_economy cfg) * cost_factor month cfg) in
  '(stats, active) ←
    (if Dict.mem "S_RENT_DUE" active then
       if rent <=? money stats then
         Ok (apply_effects stats [("money", - rent); ("stress", -1)],
             remove_state active "S_RENT_DUE")
       else
         arrears ← from_option (KeyError "S_RENT_ARREARS") (state_index !! "S_RENT_ARREARS");
         Ok (stats, add_state (remove_state active "S_RENT_DUE") arrears)
     else Ok (stats, active));
  due ← from_option (KeyError "S_RENT_DUE") (state_index !! "S_RENT_DUE");
  Ok (stats, add_state active due).
End Effects.

(** ** Termination evaluator *)

Definition fatal_strikes (stats : Stats) (active_states : Active) (counters : Z)
    (cfg : Config) : Z :=
  let strikes := 0 in
  let strikes :=
    if money stats <? thr_money_hard (cfg_thresholds cfg) then strikes + 1 else strikes in
  let strikes :=
    if Dict.mem "S_RENT_ARREARS" active_states
       && (thr_eviction_months (cfg_thresholds cfg) <=? counters)
    then strikes + 1 else strikes in
  let strikes :=
    if (health stats <=? 0) || (100 <=? stress stats)
       || (family stats <=? 0) || (friendship stats <=? 0)
    then strikes + 1 else strikes in
  strikes.

(** ** Simulation runner *)

(** The table [state_tag_mult] of [simulate_one]. *)
Definition state_tag_mult : list (string * list (string * Q)) :=
  [ ("S_LAYOFF", [("job", 1.6); ("debt", 1.35); ("money", 0.9); ("social", 0.95)]);
    ("S_RENT_ARREARS", [("housing", 1.7); ("debt", 1.25); ("job", 1.1)]);
    ("S_HIGH_INTEREST_LOAN", [("debt", 1.55); ("money", 0.85)]);
    ("S_CREDIT_CARD_DEBT", [("debt", 1.25); ("money", 0.92)]);
    ("S_INJURED", [("health", 1.55); ("job", 0.95)]);
    ("S_HEALTH_SCARE", [("health", 1.35); ("admin", 1.1)]);
    ("S_IMMIGRATION_ISSUE", [("admin", 1.55); ("job", 1.1)]);
    ("S_CAR_BROKEN", [("car", 1.8); ("job", 1.05)]);
    ("S_SOCIAL_ISOLATION", [("social", 1.45); ("health", 1.1)]);
    ("S_WINDFALL_BUFFER", [("debt", 0.88); ("housing", 0.92); ("money", 1.12)]);
    ("S_RENT_DUE", [("housing", 2.2)]);
    ("S_TAX_DUE", [("admin", 2.0)]);
    ("S_TRAFFIC_TICKET", [("car", 1.6); ("admin", 1.15)]);
    ("S_COLLECTIONS_NOTICE", [("debt", 1.4); ("admin", 1.2)]) ]%Q.

(** [{s["id"]: s for s in states}]: a later definition replaces an earlier
    one of the same id. *)
Definition index_states (states : list StateDef) : gmap string StateDef :=
  fold_left (fun idx s => <[sd_id s := s]> idx) states ∅.

(** What a run did, newest first.  The log is ghost state: no function of
    the program reads it. *)
Inductive log_entry : Type :=
| DidTurn (month : Z) (event_id : string)
    (* an event was drawn and one of its choices applied *)
| DidRent (month : Z)
    (* the month-end rent cycle ran *)
| Evaluated (stats : Stats) (active : Active) (counters : Z).
    (* [fatal_strikes] was evaluated on these arguments *)

Record RunState {rg : RandomGen} : Type := mkRun {
  rs_stats : Stats;
  rs_active : Active;
  rs_counters : Z;                           (* counters["rent_arrears_months"] *)
  rs_seen_counts : gmap string Z;
  rs_recent : list string;
  rs_event_counts : gmap string Z;
  rs_rng : rng;
  rs_log : list log_entry
}.
Arguments mkRun {rg} _ _ _ _ _ _ _ _.

(** [recent.append(id)] and the cut to the 40 newest ids. *)
Definition note_recent (recent : list string) (id : string) : list string :=
  let recent := recent ++ [id] in
  if (40 <? length recent)%nat then last_n 40 recent else recent.

Definition bump (id : string) (counts : gmap string Z) : gmap string Z :=
  <[id := default 0 (counts !! id) + 1]> counts.

Section Runner.
Context {lm : Libm} {rg : RandomGen}.

(** One turn: draw an event, count it, draw a choice, apply it. *)
Definition turn (pools : gmap string (list Event)) (state_index : gmap string StateDef)
    (cfg : Config) (month : Z) (st : RunState) : result RunState :=
  '(ev, g1) ← draw_event pools (rs_active st) (rs_seen_counts st) (rs_recent st)
                cfg state_tag_mult (rs_rng st);
  let event_counts := bump (ev_id ev) (rs_event_counts st) in
  let seen_counts := bump (ev_id ev) (rs_seen_counts st) in
  let recent := note_recent (rs_recent st) (ev_id ev) in
  '(ch, g2) ← random_choice (ev_choices ev) g1;
  '(stats, active, counters) ←
    apply_choice (rs_stats st) ch (rs_active st) (rs_counters st) cfg month state_index;
  Ok (mkRun stats active counters seen_counts recent event_counts g2
        (DidTurn month (ev_id ev) :: rs_log st)).

(** [fatal_strikes(...) >= cfg["thresholds"]["collections_strikes"]] *)
Definition evaluate (cfg : Config) (st : RunState) : bool * RunState :=
  let strikes := fatal_strikes (rs_stats st) (rs_active st) (rs_counters st) cfg in
  (thr_collections_strikes (cfg_thresholds cfg) <=? strikes,
   mkRun (rs_stats st) (rs_active st) (rs_counters st) (rs_seen_counts st)
     (rs_recent st) (rs_event_counts st) (rs_rng st)
     (Evaluated (rs_stats st) (rs_active st) (rs_counters st) :: rs_log st)).

(** The inner loop; [true] when the run has returned [False] inside it. *)
Fixpoint run_turns (n : nat) (pools : gmap string (list Event))
    (state_index : gmap string StateDef) (cfg : Config) (month : Z) (st : RunState)
    : result (bool * RunState) :=
  match n with
  | O => Ok (false, st)
  | S n' =>
      st ← turn pools state_index cfg month st;
      let '(dead, st) := evaluate cfg st in
      if dead then Ok (true, st)
      else run_turns n' pools state_index cfg month st
  end.

(** The body of the month loop. *)
Definition run_month (pools : gmap string (list Event))
    (state_index : gmap string StateDef) (cfg : Config) (month : Z) (st : RunState)
    : result (bool * RunState) :=
  let stats := monthly_passive (rs_stats st) cfg in
  '(stats, active, counters) ←
    apply_state_monthly stats (rs_active st) (rs_counters st) cfg month state_index;
  let st := mkRun stats active counters (rs_seen_counts st) (rs_recent st)
              (rs_event_counts st) (rs_rng st) (rs_log st) in
  '(dead, st) ← run_turns (Z.to_nat (cfg_turns_per_month cfg)) pools state_index cfg month st;
  if (dead : bool) then Ok (true, st)
  else
    '(stats, active) ← month_end_rent (rs_stats st) (rs_active st) cfg month state_index;
    let st := mkRun stats active (rs_counters st) (rs_seen_counts st) (rs_recent st)
                (rs_event_counts st) (rs_rng st) (DidRent month :: rs_log st) in
    Ok (evaluate cfg st).

(** [for month in range(...)], [n] months left, the next one is [month]. *)
Fixpoint run_months (n : nat) (pools : gmap string (list Event))
    (state_index : gmap string StateDef) (cfg : Config) (month : Z) (st : RunState)
    : result (bool * RunState) :=
  match n with
  | O => Ok (false, st)
  | S n' =>
      '(dead, st) ← run_month pools state_index cfg month st;
      if (dead : bool) then Ok (true, st)
      else run_months n' pools state_index cfg (month + 1) st
  end.

(** The state after Setup: the generator seeded, the stats at their start
    values, the rent-due and paycheck conditions installed. *)
Definition setup (state_index : gmap string StateDef) (cfg : Config) (seed : Z) (g : rng)
    : result RunState :=
  let g := random_seed seed g in
  let stats := mkStats (money (cfg_attrs_start cfg)) (health (cfg_attrs_start cfg))
                 (stress (cfg_attrs_start cfg)) (family (cfg_attrs_start cfg))
                 (friendship (cfg_attrs_start cfg)) in
  let active : Active := [] in
  due ← from_option (KeyError "S_RENT_DUE") (state_index !! "S_RENT_DUE");
  let active := add_state active due in
  paycheck ← from_option (KeyError "S_PAYCHECK") (state_index !! "S_PAYCHECK");
  let active := add_state active paycheck in
  Ok (mkRun stats active 0 ∅ [] ∅ g []).

(** The whole run, with the final state. *)
Definition run (events : list Event) (states : list StateDef) (cfg : Config) (seed : Z)
    (g : rng) : result (bool * RunState) :=
  let pools := build_pools events in
  let state_index := index_states states in
  st ← setup state_index cfg seed g;
  run_months (Z.to_nat (cfg_max_months cfg)) pools state_index cfg 0 st.

(** [simulate_one]: [g] is the state the module-level generator is in when
    the function is called; the result carries the state it is left in. *)
Definition simulate_one (events : list Event) (states : list StateDef) (cfg : Config)
    (seed : Z) (g : rng) : result ((bool * nat * gmap string Z) * rng) :=
  '(dead, st) ← run events states cfg seed g;
  Ok ((negb dead, size (rs_seen_counts st), rs_event_counts st), rs_rng st).

(** The accumulators of [main]: [wins], [uniqs] and [total_counts]. *)
Definition Totals : Type := Z * list nat * gmap string Z.

(** [total_counts.update(ec)] *)
Definition counter_update (total ec : gmap string Z) : gmap string Z :=
  union_with (fun a b => Some (a + b)) total ec.

(** The loop of [main] over [range(runs)], [n] runs left, the next is [i]. *)
Fixpoint monte_carlo (n : nat) (i : Z) (events : list Event) (states : list StateDef)
    (cfg : Config) (seed : Z) (acc : Totals) (g : rng) : result (Totals * rng) :=
  match n with
  | O => Ok (acc, g)
  | S n' =>
      '((ok, uniq, ec), g') ← simulate_one events states cfg (seed + i) g;
      let '(wins, uniqs, total_counts) := acc in
      monte_carlo n' (i + 1) events states cfg seed
        (wins + (if (ok : bool) then 1 else 0), uniqs ++ [uniq], counter_update total_counts ec) g'
  end.
End Runner.

(** ** A concrete runtime for the worked examples *)

(** A generator that replays a script: [random.random()] returns the next
    scripted number (0 once the script is used up, or for a number outside
    [[0, 1)]), and [_randbelow(n)] scales the next number to [[0, n)]. *)
Definition scripted_random (g : list Q) : Q * list Q :=
  match g with
  | [] => (0%Q, [])
  | u :: rest => (if Qle_bool 0 u && negb (Qle_bool 1 u) then u else 0%Q, rest)
  end.

Definition scripted_randbelow (n : nat) (g : list Q) : nat * list Q :=
  let '(u, g') := scripted_random g in
  ((Z.to_nat (Qfloor (u * inject_Z (Z.of_nat n))) mod n)%nat, g').

Lemma scripted_random_range (g : list Q) :
  (0 <= fst (scripted_random g))%Q /\ (fst (scripted_random g) < 1)%Q.
Proof.
  assert (Hz : (0 <= 0)%Q /\ (0 < 1)%Q) by (split; [apply Qle_refl | reflexivity]).
  destruct g as [|u rest]; simpl; [exact Hz|].
  destruct (Qle_bool 0 u) eqn:H0; simpl; [|exact Hz].
  destruct (Qle_bool 1 u) eqn:H1; simpl; [exact Hz|].
  split; [now apply Qle_bool_iff|].
  apply Qnot_le_lt. intros Hle. apply Qle_bool_iff in Hle. congruence.
Qed.

Lemma scripted_randbelow_lt (n : nat) (g : list Q) :
  (0 < n)%nat -> (fst (scripted_randbelow n g) < n)%nat.
Proof.
  intros Hn. unfold scripted_randbelow.
  destruct (scripted_random g) as [u g']. simpl.
  apply Nat.mod_upper_bound. lia.
Qed.

(** [script seed] is what the generator replays after [random.seed(seed)]. *)
Definition scripted (script : Z -> list Q) : RandomGen := {|
  rng := list Q;
  random_seed := fun seed _ => script seed;
  random_seed_resets := fun _ _ _ => eq_refl;
  random_random := scripted_random;
  random_randbelow := scripted_randbelow;
  random_random_range := scripted_random_range;
  random_randbelow_lt := scripted_randbelow_lt
|}.

(** [**] at an integral exponent and [math.exp] at 0 are exact; the worked
    examples evaluate them nowhere else. *)
Definition example_libm : Libm := {|
  math_exp := fun x => (1 + x + x * x / 2)%Q;
  float_pow := fun b e => Qpower b (Qfloor e)
|}.

(** ** Vocabulary of the specification *)

(** The sum of the deltas an effects mapping holds for [k]. *)
Definition sum_deltas (k : string) (effects : list (string * Z)) : Z :=
  fold_right (fun kv acc => if String.eqb (fst kv) k then snd kv + acc else acc) 0 effects.

(** The running sum of [weighted_choice] after candidate [i], started at [acc]. *)
Definition run_sum (acc : Q) (weights : list Q) (i : nat) : Q :=
  fold_left Qplus (firstn (S i) weights) acc.

(** The cumulative weight of candidate [i]. *)
Definition cumulative (weights : list Q) (i : nat) : Q := run_sum 0 weights i.

Definition is_step (e : log_entry) : Prop :=
  match e with
  | Evaluated _ _ _ => False
  | _ => True
  end.

(** A log (newest first) of a run that is still going: every turn and every
    rent cycle is followed at once by an evaluation, and every evaluation
    counted fewer strikes than the threshold. *)
Inductive log_alive (cfg : Config) : list log_entry -> Prop :=
| alive_nil : log_alive cfg []
| alive_step stats active counters step l :
    is_step step ->
    fatal_strikes stats active counters cfg < thr_collections_strikes (cfg_thresholds cfg) ->
    log_alive cfg l ->
    log_alive cfg (Evaluated stats active counters :: step :: l).

(** The log of a run that has failed: it was going until its last step, and
    the evaluation after that step, on the state the run ends in, reached
    the threshold. *)
Definition log_ended {rg : RandomGen} (cfg : Config) (st : RunState) : Prop :=
  exists step l,
    rs_log st = Evaluated (rs_stats st) (rs_active st) (rs_counters st) :: step :: l
    /\ is_step step
    /\ thr_collections_strikes (cfg_thresholds cfg)
       <= fatal_strikes (rs_stats st) (rs_active st) (rs_counters st) cfg
    /\ log_alive cfg l.

Definition run_ok {rg : RandomGen} (cfg : Config) (dead : bool) (st : RunState) : Prop :=
  if dead then log_ended cfg st else log_alive cfg (rs_log st).

(** The three fatal signals, each worth one strike. *)
Definition money_signal (stats : Stats) (cfg : Config) : Prop :=
  money stats < thr_money_hard (cfg_thresholds cfg).

Definition arrears_signal (active_states : Active) (counters : Z) (cfg : Config) : Prop :=
  Dict.mem "S_RENT_ARREARS" active_states = true
  /\ thr_eviction_months (cfg_thresholds cfg) <= counters.

Definition vital_signal (stats : Stats) : Prop :=
  health stats <= 0 \/ 100 <= stress stats \/ family stats <= 0 \/ friendship stats <= 0.

#[global] Instance money_signal_dec stats cfg : Decision (money_signal stats cfg).
Proof. unfold money_signal. apply _. Defined.

#[global] Instance arrears_signal_dec active counters cfg :
  Decision (arrears_signal active counters cfg).
Proof. unfold arrears_signal. apply _. Defined.

#[global] Instance vital_signal_dec stats : Decision (vital_signal stats).
Proof. unfold vital_signal. apply _. Defined.

Section Totals.
Context {rg : RandomGen}.

(** The accumulated totals of a Monte Carlo loop, without the generator. *)
Definition totals_of (r : result (Totals * rng)) : result Totals :=
  match r with
  | Ok (acc, _) => Ok acc
  | Raise e => Raise e
  end.

End Totals.

Definition has_tag (tag : string) (ev : Event) : bool :=
  String.eqb (ev_primary_tag ev) tag.

(** The ids a run drew, oldest first, read off its log. *)
Definition drawn_ids (log : list log_entry) : list string :=
  rev (omap (fun e => match e with DidTurn _ id => Some id | _ => None end) log).

(** The list [recent] holds the 40 newest of the ids drawn so far. *)
Definition recent_inv {rg : RandomGen} (st : RunState) : Prop :=
  rs_recent st = last_n 40 (drawn_ids (rs_log st)).


Section ScalingVocabulary.
Context {lm : Libm}.
Variables (stats : Stats) (cfg : Config).

(** What both paths do to one entry before the money and stress steps. *)
Definition scale_entry (kv : string * Z) : string * Z :=
  (fst kv,
   if name_in (fst kv) recoverable_attrs && (0 <? snd kv)
   then py_round (effective_gain (inject_Z (snd kv)) (attr (fst kv) stats) cfg)
   else snd kv).

End ScalingVocabulary.

(** ** The world of the worked examples *)

(** A small world: three conditions, and events of the tag "job" only. *)
Definition no_effect_state (id : string) : StateDef :=
  {| sd_id := id; sd_type := "counter"; sd_duration := None; sd_stacking := None;
     sd_monthly_effect := [] |}.

Definition ex_states : list StateDef :=
  [no_effect_state "S_RENT_DUE"; no_effect_state "S_PAYCHECK";
   no_effect_state "S_RENT_ARREARS"].

Definition idle_choice : Choice :=
  {| ch_effects := []; ch_action := None; ch_add_states := []; ch_remove_states := [] |}.

Definition idle_event (id : string) : Event :=
  {| ev_id := id; ev_primary_tag := "job"; ev_base_weight := None;
     ev_choices := [idle_choice] |}.

Definition ex_events : list Event := [idle_event "E1"].

(** Rent 1000, hard money threshold -5000, eviction after 3 months; no
    passive recovery, no inflation, no wage growth. *)
Definition ex_cfg (start_money strikes window months turns : Z) : Config :=
  {| cfg_attrs_start := mkStats start_money 70 30 60 60;
     cfg_recovery :=
       {| rec_alpha := 0; rec_soft_floor := 0;
          rec_monthly_passive :=
            {| mp_health_base_regen := 0; mp_stress_base_decay := 0;
               mp_relationship_base_regen := 0 |} |};
     cfg_economy :=
       {| eco_rent := 1000; eco_inflation_per_year := None;
          eco_wage_growth_per_year := None |};
     cfg_balance :=
       {| bal_pos_money_mult := 2; bal_neg_money_mult := 1; bal_stress_mult := 1 |};
     cfg_draw :=
       {| draw_anti_repeat_beta := 0; draw_recent_window := window;
          draw_recent_penalty := 0.5 |};
     cfg_thresholds :=
       {| thr_money_hard := -5000; thr_eviction_months := 3;
          thr_collections_strikes := strikes |};
     cfg_max_months := months;
     cfg_turns_per_month := turns |}.

(** A generator that returns 0 at every draw. *)
Definition zero_gen : RandomGen := scripted (fun _ => []).

(** The log of a run, with its outcome. *)
Definition log_of {rg : RandomGen} (r : result (bool * RunState))
    : result (bool * list log_entry) :=
  match r with
  | Ok (dead, st) => Ok (dead, rs_log st)
  | Raise e => Raise e
  end.

(** An event that pays the rent at once and clears the rent-due condition. *)
Definition pay_event : Event :=
  {| ev_id := "E_PAY"; ev_primary_tag := "job"; ev_base_weight := None;
     ev_choices :=
       [{| ch_effects := []; ch_action := Some "PAY_RENT"; ch_add_states := [];
           ch_remove_states := ["S_RENT_DUE"] |}] |}.

(** A paycheck of 10000 a month. *)
Definition paid_states : list StateDef :=
  [no_effect_state "S_RENT_DUE";
   {| sd_id := "S_PAYCHECK"; sd_type := "counter"; sd_duration := None;
      sd_stacking := None; sd_monthly_effect := [("money", 10000)] |};
   no_effect_state "S_RENT_ARREARS"].

(** The script of a run of 41 turns that draws "E0" first and "E1" 40 times:
    each turn takes three numbers, for the tag, the event and the choice. *)
Definition first_then_other : list Q :=
  [0; 0; 0]%Q ++ concat (repeat [0; 0.999; 0]%Q 40).

Definition loan_active : Active := [("S_HIGH_INTEREST_LOAN", None)].

Definition gain_choice : Choice :=
  {| ch_effects := [("money", 2)]; ch_action := None; ch_add_states := [];
     ch_remove_states := [] |}.

Definition loan_state : StateDef :=
  {| sd_id := "S_HIGH_INTEREST_LOAN"; sd_type := "counter"; sd_duration := None;
     sd_stacking := None; sd_monthly_effect := [("money", 2)] |}.


(** What the recency example reads off a finished run: the ids drawn, the
    list [recent], and the weight [ev] would get at the next draw. *)
Definition window_probe {lm : Libm} {rg : RandomGen} (cfg : Config) (ev : Event)
    (r : result (bool * RunState)) : option (list string * list string * Q) :=
  match r with
  | Ok (_, st) =>
      Some (drawn_ids (rs_log st), rs_recent st,
            Qred (candidate_weight (rs_seen_counts st) (recent_set_of (rs_recent st) cfg)
                    cfg ev))
  | Raise _ => None
  end.

(** ** Vocabulary of the further properties *)

(** A condition with a countdown: not a counter, and with a duration. *)
Definition transient (sdef : StateDef) (dur : Z) : Prop :=
  String.eqb (sd_type sdef) "counter" = false /\ sd_duration sdef = Some dur.

Definition stacks_extend (sdef : StateDef) : bool :=
  String.eqb (default "refresh" (sd_stacking sdef)) "extend".

(** [add_state] of one condition, [n] times in a row. *)
Fixpoint add_times (n : nat) (active : Active) (sdef : StateDef) : Active :=
  match n with
  | O => active
  | S n' => add_state (add_times n' active sdef) sdef
  end.

Definition stat_names : list string :=
  ["money"; "health"; "stress"; "family"; "friendship"].

(** The loop of [apply_choice] over [add_states]. *)
Definition add_loop (state_index : gmap string StateDef) (adds : list string)
    (active : Active) : result Active :=
  fold_result
    (fun active sid =>
       sdef ← from_option (KeyError sid) (state_index !! sid);
       Ok (add_state active sdef))
    adds active.

(** The registry is keyed by the ids of its definitions, as [index_states]
    builds it. *)
Definition keyed_by_id (state_index : gmap string StateDef) : Prop :=
  forall k d, state_index !! k = Some d -> sd_id d = k.

Definition is_counter (state_index : gmap string StateDef) (sid : string) : bool :=
  match state_index !! sid with
  | Some sdef => String.eqb (sd_type sdef) "counter"
  | None => false
  end.

(** What a month does to one active condition: a counter and a condition
    without countdown stay as they are, a countdown loses one period, and
    the condition goes when no period is left. *)
Definition tick_entry (state_index : gmap string StateDef) (e : string * option Z)
    : option (string * option Z) :=
  if is_counter state_index (fst e) then Some e
  else match snd e with
       | Some r => if r - 1 <=? 0 then None else Some (fst e, Some (r - 1))
       | None => Some e
       end.

Definition stats_in_range (s : Stats) : Prop :=
  0 <= health s <= 100 /\ 0 <= stress s <= 100
  /\ 0 <= family s <= 100 /\ 0 <= friendship s <= 100.

(** A state the termination check evaluated is well formed: the clamped
    attributes are in [0, 100], the active ids are unique, the arrears
    counter is not negative. *)
Definition eval_well_formed (e : log_entry) : Prop :=
  match e with
  | Evaluated stats active counters =>
      stats_in_range stats /\ List.NoDup (Dict.keys active) /\ 0 <= counters
  | _ => True
  end.

Definition conditions_well_formed {rg : RandomGen} (st : RunState) : Prop :=
  Forall eval_well_formed (rs_log st)
  /\ List.NoDup (Dict.keys (rs_active st)) /\ 0 <= rs_counters st.

(** How often [id] occurs in a list of drawn ids. *)
Definition occurrences (id : string) (ids : list string) : nat :=
  length (List.filter (fun x => String.eqb x id) ids).

(** The rent cycles a log records. *)
Definition rent_cycles (log : list log_entry) : nat :=
  length (List.filter (fun e => match e with DidRent _ => true | _ => false end) log).

(** The two tallies of a run agree and count the draws. *)
Definition tallies_count_draws {rg : RandomGen} (st : RunState) : Prop :=
  rs_seen_counts st = rs_event_counts st
  /\ forall id, rs_event_counts st !! id
                = (if (occurrences id (drawn_ids (rs_log st)) =? 0)%nat then None
                   else Some (Z.of_nat (occurrences id (drawn_ids (rs_log st))))).

Definition defined_in (state_index : gmap string StateDef) (sid : string) : bool :=
  match state_index !! sid with Some _ => true | None => false end.

(** Every tag has an event, every event has a choice, every condition a
    choice adds is in the registry, and so are the three conditions the
    runner itself installs. *)
Definition catalog_closed (events : list Event) (state_index : gmap string StateDef)
    : bool :=
  forallb (fun tag => existsb (has_tag tag) events) TAGS
  && forallb
       (fun ev =>
          match ev_choices ev with [] => false | _ => true end
          && forallb (fun ch => forallb (defined_in state_index) (ch_add_states ch))
               (ev_choices ev))
       events
  && forallb (defined_in state_index) ["S_RENT_DUE"; "S_PAYCHECK"; "S_RENT_ARREARS"].

(** The active conditions have unique ids, all defined in the registry. *)
Definition conditions_defined (state_index : gmap string StateDef) (active : Active)
    : Prop :=
  List.NoDup (Dict.keys active)
  /\ forall sid, In sid (Dict.keys active) -> is_Some (state_index !! sid).

(** ** Further worked-example data *)

(** A countdown condition of three periods that stacks by extension. *)
Definition injured_state : StateDef :=
  {| sd_id := "S_INJURED"; sd_type := "timed"; sd_duration := Some 3;
     sd_stacking := Some "extend"; sd_monthly_effect := [("health", -2)] |}.

(** One idle event for each of the eight tags. *)
Definition full_events : list Event :=
  map (fun tag =>
         {| ev_id := String.append "E_" tag; ev_primary_tag := tag;
            ev_base_weight := None; ev_choices := [idle_choice] |})
    TAGS.

(** A choice that swaps the rent-due condition for the arrears condition. *)
Definition arrears_choice : Choice :=
  {| ch_effects := [("stress", 5)]; ch_action := None;
     ch_add_states := ["S_RENT_ARREARS"]; ch_remove_states := ["S_RENT_DUE"] |}.

(** A choice that pays the rent through the "PAY_RENT" action. *)
Definition rent_choice : Choice :=
  {| ch_effects := [("stress", -3)]; ch_action := Some "PAY_RENT";
     ch_add_states := []; ch_remove_states := ["S_RENT_DUE"] |}.

(** * Properties *)

(** ** Stat ledger *)

Lemma clamp_range (v : Z) : 0 <= clamp v 0 100 <= 100.
Proof. unfold clamp. lia. Qed.

Ltac case_key k s :=
  destruct (String.eqb_spec k s); [subst k|].

Lemma apply_effect_money (s : Stats) (k : string) (dv : Z) :
  money (apply_effect s (k, dv)) = money s + (if String.eqb k "money" then dv else 0).
Proof.
  unfold apply_effect, stats_get, stats_set, name_in, clamped_attrs.
  case_key k "money"; [simpl; lia|].
  case_key k "health"; [simpl; lia|].
  case_key k "stress"; [simpl; lia|].
  case_key k "family"; [simpl; lia|].
  case_key k "friendship"; [simpl; lia|].
  simpl; lia.
Qed.

Lemma apply_effects_money (effects : list (string * Z)) (s : Stats) :
  money (apply_effects s effects) = money s + sum_deltas "money" effects.
Proof.
  unfold apply_effects. revert s.
  induction effects as [|[k dv] rest IH]; intros s; cbn [fold_left sum_deltas fold_right fst snd].
  - lia.
  - rewrite IH, apply_effect_money. fold (sum_deltas "money" rest).
    destruct (String.eqb k "money"); lia.
Qed.

(** One effect on a clamped attribute: in range when the effect names it,
    untouched otherwise. *)
Lemma apply_effect_clamped (s : Stats) (k k' : string) (dv : Z) :
  In k clamped_attrs ->
  (k' = k /\ 0 <= attr k (apply_effect s (k', dv)) <= 100)
  \/ (k' <> k /\ attr k (apply_effect s (k', dv)) = attr k s).
Proof.
  intros Hk. pose proof (clamp_range) as Hc.
  unfold clamped_attrs in Hk. simpl in Hk.
  destruct (String.eqb_spec k' k) as [->|Hne]; [left | right]; (split; [done|]).
  - destruct Hk as [<-|[<-|[<-|[<-|[]]]]]; cbn; apply Hc.
  - unfold apply_effect, stats_get, stats_set, name_in, clamped_attrs.
    case_key k' "money"; [destruct Hk as [<-|[<-|[<-|[<-|[]]]]]; reflexivity|].
    case_key k' "health"; [destruct Hk as [<-|[<-|[<-|[<-|[]]]]]; first [reflexivity | congruence]|].
    case_key k' "stress"; [destruct Hk as [<-|[<-|[<-|[<-|[]]]]]; first [reflexivity | congruence]|].
    case_key k' "family"; [destruct Hk as [<-|[<-|[<-|[<-|[]]]]]; first [reflexivity | congruence]|].
    case_key k' "friendship"; [destruct Hk as [<-|[<-|[<-|[<-|[]]]]]; first [reflexivity | congruence]|].
    reflexivity.
Qed.

Lemma apply_effects_clamped (effects : list (string * Z)) (s : Stats) (k : string) :
  In k clamped_attrs ->
  In k (Dict.keys effects) \/ 0 <= attr k s <= 100 ->
  0 <= attr k (apply_effects s effects) <= 100.
Proof.
  intros Hk. unfold apply_effects. revert s.
  induction effects as [|[k' dv] rest IH]; intros s H; cbn [fold_left].
  - destruct H as [[]|H]; exact H.
  - apply IH.
    destruct (apply_effect_clamped s k k' dv Hk) as [[-> Hr]|[Hne He]].
    + right. exact Hr.
    + destruct H as [[Heq|Hin]|Hr].
      * simpl in Heq. congruence.
      * left. exact Hin.
      * right. rewrite He. exact Hr.
Qed.

Lemma apply_effects_unnamed (effects : list (string * Z)) (s : Stats) (k : string) :
  In k clamped_attrs ->
  ~ In k (Dict.keys effects) ->
  attr k (apply_effects s effects) = attr k s.
Proof.
  intros Hk. unfold apply_effects. revert s.
  induction effects as [|[k' dv] rest IH]; intros s Hnot; cbn [fold_left]; [reflexivity|].
  rewrite IH by (intros Hin; apply Hnot; right; exact Hin).
  destruct (apply_effect_clamped s k k' dv Hk) as [[-> _]|[_ He]]; [|exact He].
  exfalso. apply Hnot. now left.
Qed.

(** C2 (amended): after one call of [apply_effects] each of health, stress,
    family and friendship that the effects name lies in [0, 100], however
    large the deltas, and one they do not name keeps its value, so it lies
    in [0, 100] if it did before the call; money is never clamped: it
    changes by the sum of its deltas, and may go negative. *)
Theorem apply_effects_bounds (s : Stats) (effects : list (string * Z)) (k : string) :
  In k clamped_attrs ->
  In k (Dict.keys effects) \/ 0 <= attr k s <= 100 ->
  0 <= attr k (apply_effects s effects) <= 100
  /\ (~ In k (Dict.keys effects) -> attr k (apply_effects s effects) = attr k s)
  /\ money (apply_effects s effects) = money s + sum_deltas "money" effects.
Proof.
  intros Hk Hnamed. split; [|split].
  - now apply apply_effects_clamped.
  - now apply apply_effects_unnamed.
  - apply apply_effects_money.
Qed.

(** ** Weighted choice *)

Lemma run_sum_0 (acc w : Q) (ws : list Q) : run_sum acc (w :: ws) 0 = (acc + w)%Q.
Proof. reflexivity. Qed.

Lemma run_sum_S (acc w : Q) (ws : list Q) (i : nat) :
  run_sum acc (w :: ws) (S i) = run_sum (acc + w)%Q ws i.
Proof. reflexivity. Qed.

Lemma wc_scan_hit {A : Type} (items : list A) :
  forall (weights : list Q) (r acc : Q) (i : nat) (it : A),
    items !! i = Some it -> (i < length weights)%nat ->
    (r <= run_sum acc weights i)%Q ->
    (forall j, (j < i)%nat -> ~ (r <= run_sum acc weights j)%Q) ->
    wc_scan r acc (zip items weights) = Some it.
Proof.
  induction items as [|x xs IH]; intros weights r acc i it Hit Hlen Hle Hfirst.
  - destruct i; discriminate.
  - destruct weights as [|w ws]; [simpl in Hlen; lia|].
    cbn [zip zip_with wc_scan].
    destruct i as [|i'].
    + cbn in Hit. injection Hit as ->.
      rewrite run_sum_0 in Hle.
      apply Qle_bool_iff in Hle. now rewrite Hle.
    + destruct (Qle_bool r (acc + w)) eqn:Hb.
      * exfalso. apply (Hfirst 0%nat); [lia|].
        rewrite run_sum_0. now apply Qle_bool_iff.
      * apply (IH ws r (acc + w)%Q i' it).
        -- exact Hit.
        -- simpl in Hlen. lia.
        -- now rewrite run_sum_S in Hle.
        -- intros j Hj. rewrite <- run_sum_S. apply Hfirst. lia.
Qed.

Lemma wc_scan_miss {A : Type} (items : list A) :
  forall (weights : list Q) (r acc : Q),
    (forall j, (j < Nat.min (length items) (length weights))%nat ->
               ~ (r <= run_sum acc weights j)%Q) ->
    wc_scan r acc (zip items weights) = None.
Proof.
  induction items as [|x xs IH]; intros weights r acc Hall; [reflexivity|].
  destruct weights as [|w ws]; [reflexivity|].
  cbn [zip zip_with wc_scan].
  destruct (Qle_bool r (acc + w)) eqn:Hb.
  - exfalso. apply (Hall 0%nat); [simpl; lia|].
    rewrite run_sum_0. now apply Qle_bool_iff.
  - apply IH. intros j Hj. rewrite <- run_sum_S. apply Hall. simpl. lia.
Qed.

Lemma sum_of_zeros (weights : list Q) :
  Forall (Qeq 0) weights -> forall acc, (acc == 0)%Q -> (fold_left Qplus weights acc == 0)%Q.
Proof.
  induction 1 as [|w ws Hw _ IH]; intros acc Hacc; cbn [fold_left]; [exact Hacc|].
  apply IH. rewrite Hacc, <- Hw. reflexivity.
Qed.

Section WeightedChoice.
Context {rg : RandomGen} {A : Type}.

(** C1 (amended): for every candidate list, weights and draw, the weighted
    choice returns the first candidate in iteration order whose cumulative
    weight is greater than or equal to the draw times the total weight; it
    falls back to the last candidate only when no cumulative weight reaches
    that value; a pool whose weights are all zero yields its first
    candidate. *)
Theorem weighted_choice_rule (items : list A) (weights : list Q) (g : rng) :
  let r := (fst (random_random g) * py_sum weights)%Q in
  let g' := snd (random_random g) in
  (forall i it,
      items !! i = Some it -> (i < length weights)%nat ->
      (r <= cumulative weights i)%Q ->
      (forall j, (j < i)%nat -> ~ (r <= cumulative weights j)%Q) ->
      weighted_choice items weights g = Ok (it, g'))
  /\ ((forall j, (j < Nat.min (length items) (length weights))%nat ->
                 ~ (r <= cumulative weights j)%Q) ->
      weighted_choice items weights g = from_option IndexError (last items) ≫= (fun it => Ok (it, g')))
  /\ (forall it rest,
        items = it :: rest -> weights <> [] -> Forall (Qeq 0) weights ->
        weighted_choice items weights g = Ok (it, g')).
Proof.
  intros r g'. subst r g'. unfold weighted_choice.
  destruct (random_random g) as [u g1]. cbn [fst snd].
  split; [|split].
  - intros i it Hit Hlen Hle Hfirst.
    now rewrite (wc_scan_hit items weights _ 0%Q i it Hit Hlen Hle Hfirst).
  - intros Hall. now rewrite (wc_scan_miss items weights _ 0%Q Hall).
  - intros it rest -> Hne Hz.
    destruct weights as [|w ws]; [congruence|].
    cbn [zip zip_with wc_scan].
    assert (Htot : (py_sum (w :: ws) == 0)%Q)
      by (apply sum_of_zeros; [exact Hz | reflexivity]).
    assert (Hw : (0 == w)%Q) by (now inversion Hz).
    assert (Hle : (u * py_sum (w :: ws) <= 0 + w)%Q).
    { rewrite Htot, <- Hw. rewrite Qmult_0_r. apply Qle_refl. }
    apply Qle_bool_iff in Hle. now rewrite Hle.
Qed.
End WeightedChoice.

(** ** Termination *)

Section Termination.
Context {lm : Libm} {rg : RandomGen}.
Variables (pools : gmap string (list Event)) (state_index : gmap string StateDef)
          (cfg : Config).

Lemma turn_log (month : Z) (st st' : RunState) :
  turn pools state_index cfg month st = Ok st' ->
  exists id, rs_log st' = DidTurn month id :: rs_log st.
Proof.
  unfold turn. intros H.
  destruct (draw_event _ _ _ _ _ _ _) as [[ev g1]|e]; [|discriminate].
  cbn in H.
  destruct (random_choice _ _) as [[ch g2]|e]; [|discriminate].
  cbn in H.
  destruct (apply_choice _ _ _ _ _ _ _) as [[[stats active] counters]|e]; [|discriminate].
  cbn in H. injection H as <-. eexists. reflexivity.
Qed.

(** An evaluation after a step either keeps the run going or ends it. *)
Lemma evaluate_log (st : RunState) (step : log_entry) (l : list log_entry) :
  rs_log st = step :: l -> is_step step -> log_alive cfg l ->
  run_ok cfg (fst (evaluate cfg st)) (snd (evaluate cfg st)).
Proof.
  intros Hlog Hstep Hl. unfold evaluate, run_ok. cbn [fst snd].
  destruct (Z.leb_spec (thr_collections_strikes (cfg_thresholds cfg))
              (fatal_strikes (rs_stats st) (rs_active st) (rs_counters st) cfg)) as [Hge|Hlt].
  - exists step, l. cbn. rewrite Hlog. auto.
  - cbn. rewrite Hlog. now constructor.
Qed.

Lemma run_turns_log (month : Z) (n : nat) :
  forall (st st' : RunState) (dead : bool),
    log_alive cfg (rs_log st) ->
    run_turns n pools state_index cfg month st = Ok (dead, st') ->
    run_ok cfg dead st'.
Proof.
  induction n as [|n IH]; intros st st' dead Hl H.
  - cbn in H. injection H as <- <-. exact Hl.
  - cbn [run_turns] in H.
    destruct (turn pools state_index cfg month st) as [st1|e] eqn:Ht; [|discriminate].
    cbn -[evaluate] in H.
    destruct (turn_log _ _ _ Ht) as [id Hlog].
    pose proof (evaluate_log st1 _ _ Hlog I Hl) as Hev.
    destruct (evaluate cfg st1) as [d st2]. cbn [fst snd] in Hev.
    destruct d; cbn iota beta in H.
    + injection H as <- <-. exact Hev.
    + apply (IH st2 st' dead Hev H).
Qed.

Lemma run_month_log (month : Z) (st st' : RunState) (dead : bool) :
  log_alive cfg (rs_log st) ->
  run_month pools state_index cfg month st = Ok (dead, st') ->
  run_ok cfg dead st'.
Proof.
  unfold run_month. intros Hl H.
  destruct (apply_state_monthly _ _ _ _ _ _) as [[[stats active] counters]|e]; [|discriminate].
  cbn in H.
  destruct (run_turns _ _ _ _ _ _) as [[d st1]|e] eqn:Hr; [|discriminate].
  cbn in H.
  apply run_turns_log in Hr; [|exact Hl].
  destruct d.
  - injection H as <- <-. exact Hr.
  - destruct (month_end_rent _ _ _ _ _) as [[stats2 active2]|e]; [|discriminate].
    cbn -[evaluate] in H.
    match type of H with Ok (evaluate cfg ?s) = _ =>
      pose proof (evaluate_log s (DidRent month) (rs_log st1) eq_refl I Hr) as Hev;
      destruct (evaluate cfg s) as [d2 st2]
    end.
    injection H as <- <-. exact Hev.
Qed.

Lemma run_months_log (n : nat) :
  forall (month : Z) (st st' : RunState) (dead : bool),
    log_alive cfg (rs_log st) ->
    run_months n pools state_index cfg month st = Ok (dead, st') ->
    run_ok cfg dead st'.
Proof.
  induction n as [|n IH]; intros month st st' dead Hl H.
  - cbn in H. injection H as <- <-. exact Hl.
  - cbn [run_months] in H.
    destruct (run_month pools state_index cfg month st) as [[d st1]|e] eqn:Hm; [|discriminate].
    cbn in H.
    apply run_month_log in Hm; [|exact Hl].
    destruct d.
    + injection H as <- <-. exact Hm.
    + apply (IH _ _ _ _ Hm H).
Qed.
End Termination.

Lemma fatal_strikes_sum (stats : Stats) (active_states : Active) (counters : Z) (cfg : Config) :
  fatal_strikes stats active_states counters cfg
  = Z.b2z (bool_decide (money_signal stats cfg))
    + Z.b2z (bool_decide (arrears_signal active_states counters cfg))
    + Z.b2z (bool_decide (vital_signal stats)).
Proof.
  unfold fatal_strikes.
  repeat case_bool_decide;
    unfold money_signal, arrears_signal, vital_signal in *;
    destruct (Z.ltb_spec (money stats) (thr_money_hard (cfg_thresholds cfg)));
    destruct (Dict.mem "S_RENT_ARREARS" active_states);
    destruct (Z.leb_spec (thr_eviction_months (cfg_thresholds cfg)) counters);
    destruct (Z.leb_spec (health stats) 0);
    destruct (Z.leb_spec 100 (stress stats));
    destruct (Z.leb_spec (family stats) 0);
    destruct (Z.leb_spec (friendship stats) 0);
    cbn [andb orb Z.b2z];
    first [reflexivity | lia | exfalso; intuition (lia || congruence)].
Qed.

(** C10: one termination evaluation returns a strike count between 0 and 3:
    the money signal, the arrears-duration signal and the vital-stat group
    contribute one strike each at most, so several simultaneous breaches
    among health <= 0, family <= 0, friendship <= 0 and stress >= 100 add
    one strike together. *)
Theorem fatal_strikes_range (stats : Stats) (active_states : Active) (counters : Z)
    (cfg : Config) :
  0 <= fatal_strikes stats active_states counters cfg <= 3
  /\ fatal_strikes stats active_states counters cfg
     = Z.b2z (bool_decide (money stats < thr_money_hard (cfg_thresholds cfg)))
       + Z.b2z (bool_decide (Dict.mem "S_RENT_ARREARS" active_states = true
                             /\ thr_eviction_months (cfg_thresholds cfg) <= counters))
       + Z.b2z (bool_decide (health stats <= 0 \/ 100 <= stress stats
                             \/ family stats <= 0 \/ friendship stats <= 0)).
Proof.
  pose proof (fatal_strikes_sum stats active_states counters cfg) as H.
  unfold money_signal, arrears_signal, vital_signal in H.
  split; [|exact H].
  rewrite H. repeat case_bool_decide; cbn [Z.b2z]; lia.
Qed.

Section RunTheorems.
Context {lm : Libm} {rg : RandomGen}.

Lemma run_log (events : list Event) (states : list StateDef) (cfg : Config) (seed : Z)
    (g : rng) (dead : bool) (st : RunState) :
  run events states cfg seed g = Ok (dead, st) -> run_ok cfg dead st.
Proof.
  unfold run, setup. intros H.
  destruct (index_states states !! "S_RENT_DUE") as [due|]; [|discriminate].
  cbn in H.
  destruct (index_states states !! "S_PAYCHECK") as [paycheck|]; [|discriminate].
  cbn in H.
  eapply run_months_log; [|exact H]. cbn. constructor.
Qed.

(** C3: every turn and every month-end rent cycle of a run is followed at
    once by a termination evaluation; the evaluation counts the money,
    arrears and vital-stat signals, one strike each; a run that returns
    [True] never counted as many strikes as the threshold, and a run that
    returns [False] ends in the state of the first evaluation that did:
    nothing is simulated after it. *)
Theorem run_stops_at_threshold (events : list Event) (states : list StateDef)
    (cfg : Config) (seed : Z) (g g' : rng) (ok : bool) (uniq : nat)
    (event_counts : gmap string Z) :
  simulate_one events states cfg seed g = Ok ((ok, uniq, event_counts), g') ->
  (forall stats active counters,
      fatal_strikes stats active counters cfg
      = Z.b2z (bool_decide (money_signal stats cfg))
        + Z.b2z (bool_decide (arrears_signal active counters cfg))
        + Z.b2z (bool_decide (vital_signal stats)))
  /\ exists st,
      run events states cfg seed g = Ok (negb ok, st)
      /\ uniq = size (rs_seen_counts st)
      /\ event_counts = rs_event_counts st
      /\ if ok then log_alive cfg (rs_log st) else log_ended cfg st.
Proof.
  unfold simulate_one. intros H.
  split; [intros; apply fatal_strikes_sum|].
  destruct (run events states cfg seed g) as [[dead st]|e] eqn:Hrun; [|discriminate].
  cbn in H. injection H as <- <- <- <-.
  exists st. rewrite negb_involutive.
  repeat split; try reflexivity.
  apply run_log in Hrun. unfold run_ok in Hrun. now destruct dead.
Qed.

(** The first evaluation of a log that is still going is below the threshold. *)
Lemma alive_first (cfg : Config) (L : list log_entry) :
  log_alive cfg L ->
  forall l stats active counters step,
    L = l ++ [Evaluated stats active counters; step] ->
    fatal_strikes stats active counters cfg < thr_collections_strikes (cfg_thresholds cfg).
Proof.
  induction 1 as [|s a c step' L' Hstep Hlt Halive IH]; intros l stats active counters step HL.
  - destruct l; discriminate.
  - destruct l as [|x [|y l']].
    + cbn in HL. injection HL as -> -> -> _ _. exact Hlt.
    + cbn in HL. injection HL as _ -> _. destruct Hstep.
    + cbn in HL. injection HL as _ _ ->. eapply IH. reflexivity.
Qed.

Lemma ended_first (cfg : Config) (st : RunState) :
  log_ended cfg st ->
  forall l stats active counters step,
    rs_log st = l ++ [Evaluated stats active counters; step] ->
    (l = [] /\ thr_collections_strikes (cfg_thresholds cfg)
               <= fatal_strikes stats active counters cfg)
    \/ (l <> [] /\ fatal_strikes stats active counters cfg
                   < thr_collections_strikes (cfg_thresholds cfg)).
Proof.
  intros (step' & L' & Hlog & Hstep & Hge & Halive) l stats active counters step HL.
  rewrite Hlog in HL.
  destruct l as [|x [|y l']].
  - left. cbn in HL. injection HL as <- <- <- _ _. auto.
  - cbn in HL. injection HL as _ -> _. destruct Hstep.
  - right. split; [discriminate|].
    cbn in HL. injection HL as _ _ ->. eapply alive_first; [exact Halive|reflexivity].
Qed.

Lemma money_signal_strike (stats : Stats) (active : Active) (counters : Z) (cfg : Config) :
  money stats < thr_money_hard (cfg_thresholds cfg) ->
  1 <= fatal_strikes stats active counters cfg.
Proof.
  intros Hm. rewrite fatal_strikes_sum.
  rewrite (bool_decide_eq_true_2 (money_signal stats cfg) Hm).
  repeat case_bool_decide; cbn [Z.b2z]; lia.
Qed.


(** C9: a run is a function of the catalogs, the configuration and the seed
    alone: whatever state the generator was left in before, the outcome, the
    number of distinct events, the trigger counts and the state the
    generator is left in are the same; so are the totals accumulated over a
    sequence of seeds. *)
Theorem simulate_one_deterministic (events : list Event) (states : list StateDef)
    (cfg : Config) (seed : Z) (g1 g2 : rng) :
  simulate_one events states cfg seed g1 = simulate_one events states cfg seed g2
  /\ forall n i acc,
       totals_of (monte_carlo n i events states cfg seed acc g1)
       = totals_of (monte_carlo n i events states cfg seed acc g2).
Proof.
  assert (Hone : forall seed',
             simulate_one events states cfg seed' g1 = simulate_one events states cfg seed' g2).
  { intros seed'. unfold simulate_one, run, setup.
    now rewrite (random_seed_resets seed' g1 g2). }
  split; [apply Hone|].
  intros [|n] i [[wins uniqs] total_counts]; [reflexivity|].
  cbn [monte_carlo]. now rewrite Hone.
Qed.
End RunTheorems.

(** ** Event pools *)

Lemma pools_fold_lookup (tag : string) (events : list Event) :
  forall pools : gmap string (list Event),
    fold_left pool_step events pools !! tag
    = match List.filter (has_tag tag) events with
      | [] => pools !! tag
      | more => Some (default [] (pools !! tag) ++ more)
      end.
Proof.
  induction events as [|ev rest IH]; intros pools; [reflexivity|].
  cbn [fold_left List.filter]. rewrite IH. unfold pool_step at 1 2, has_tag at 2.
  destruct (String.eqb_spec (ev_primary_tag ev) tag) as [->|Hne].
  - rewrite lookup_insert_eq. cbn [default].
    destruct (List.filter (has_tag tag) rest) as [|e more]; [reflexivity|].
    unfold id. now rewrite <- app_assoc.
  - now rewrite lookup_insert_ne.
Qed.

Lemma build_pools_lookup (events : list Event) (tag : string) :
  build_pools events !! tag
  = match List.filter (has_tag tag) events with
    | [] => None
    | pool => Some pool
    end.
Proof.
  unfold build_pools.
  rewrite pools_fold_lookup, lookup_empty.
  now destruct (List.filter (has_tag tag) events).
Qed.

Section Pools.
Context {lm : Libm} {rg : RandomGen}.

(** C7 (amended): [build_pools] only groups the events by tag and validates
    nothing: the pool of a tag is the list of the events that carry it, and
    a tag no event carries has no pool.  Every pool that exists is
    non-empty, so the choice among candidates never gets an empty list.
    A draw whose tag has no pool raises [KeyError] at the pool lookup of
    [draw_event]; a draw whose tag has a pool goes on to the weighted choice
    among its events. *)
Theorem pools_checked_at_draw (events : list Event) :
  (forall tag,
      build_pools events !! tag
      = match List.filter (has_tag tag) events with
        | [] => None
        | pool => Some pool
        end)
  /\ (forall tag pool, build_pools events !! tag = Some pool -> pool <> [])
  /\ (forall active seen_counts recent cfg g tag g1,
         let tw := tag_weights active state_tag_mult in
         weighted_choice (Dict.keys tw) (Dict.values tw) g = Ok (tag, g1) ->
         match build_pools events !! tag with
         | None =>
             draw_event (build_pools events) active seen_counts recent cfg state_tag_mult g
             = Raise (KeyError tag)
         | Some pool =>
             draw_event (build_pools events) active seen_counts recent cfg state_tag_mult g
             = weighted_choice pool
                 (map (candidate_weight seen_counts (recent_set_of recent cfg) cfg) pool) g1
         end).
Proof.
  split; [apply build_pools_lookup|split].
  - intros tag pool. rewrite build_pools_lookup.
    destruct (List.filter (has_tag tag) events); [discriminate|].
    intros [= <-]. discriminate.
  - intros active seen_counts recent cfg g tag g1 tw Hdraw.
    unfold draw_event. fold tw. rewrite Hdraw. cbn.
    now destruct (build_pools events !! tag).
Qed.
End Pools.

(** ** Rent cycle *)

Lemma dict_get_set_eq {V : Type} (k : string) (v : V) (d : list (string * V)) :
  Dict.get k (Dict.set k v d) = Some v.
Proof.
  induction d as [|[k' v'] rest IH]; cbn.
  - now rewrite String.eqb_refl.
  - destruct (String.eqb_spec k k') as [->|Hne]; cbn.
    + now rewrite String.eqb_refl.
    + destruct (String.eqb_spec k k'); [congruence|exact IH].
Qed.

Lemma dict_get_set_ne {V : Type} (k k' : string) (v : V) (d : list (string * V)) :
  k <> k' -> Dict.get k (Dict.set k' v d) = Dict.get k d.
Proof.
  intros Hne. induction d as [|[k2 v2] rest IH]; cbn.
  - destruct (String.eqb_spec k k'); [congruence|reflexivity].
  - destruct (String.eqb_spec k' k2) as [->|Hne2]; cbn.
    + destruct (String.eqb_spec k k2); [congruence|reflexivity].
    + destruct (String.eqb_spec k k2); [reflexivity|exact IH].
Qed.

Lemma dict_get_app {V : Type} (k : string) (d e : list (string * V)) :
  Dict.get k (d ++ e) = match Dict.get k d with Some v => Some v | None => Dict.get k e end.
Proof.
  induction d as [|[k' v'] rest IH]; cbn; [reflexivity|].
  destruct (String.eqb k k'); [reflexivity|exact IH].
Qed.

Lemma dict_get_setdefault_eq {V : Type} (k : string) (v : V) (d : list (string * V)) :
  Dict.mem k (Dict.setdefault k v d) = true.
Proof.
  unfold Dict.setdefault, Dict.mem.
  destruct (Dict.get k d) eqn:Hg; [now rewrite Hg|].
  rewrite dict_get_app, Hg. cbn. now rewrite String.eqb_refl.
Qed.

Lemma dict_get_setdefault_ne {V : Type} (k k' : string) (v : V) (d : list (string * V)) :
  k <> k' -> Dict.get k (Dict.setdefault k' v d) = Dict.get k d.
Proof.
  intros Hne. unfold Dict.setdefault.
  destruct (Dict.mem k' d); [reflexivity|].
  rewrite dict_get_app. destruct (Dict.get k d); [reflexivity|].
  cbn. destruct (String.eqb_spec k k'); [congruence|reflexivity].
Qed.

Lemma dict_get_pop_ne {V : Type} (k k' : string) (d : list (string * V)) :
  k <> k' -> Dict.get k (Dict.pop k' d) = Dict.get k d.
Proof.
  intros Hne. induction d as [|[k2 v2] rest IH]; cbn; [reflexivity|].
  destruct (String.eqb_spec k' k2) as [->|Hne2]; cbn.
  - destruct (String.eqb_spec k k2); [congruence|reflexivity].
  - destruct (String.eqb_spec k k2); [reflexivity|exact IH].
Qed.

Lemma add_state_mem (active : Active) (sdef : StateDef) :
  Dict.mem (sd_id sdef) (add_state active sdef) = true.
Proof.
  unfold add_state.
  destruct (String.eqb (sd_type sdef) "counter"); [apply dict_get_setdefault_eq|].
  destruct (sd_duration sdef) as [dur|]; [|apply dict_get_setdefault_eq].
  unfold Dict.mem.
  destruct (Dict.get (sd_id sdef) active) as [[r|]|];
    [destruct (String.eqb _ "extend")| |]; now rewrite dict_get_set_eq.
Qed.

Lemma add_state_other (active : Active) (sdef : StateDef) (k : string) :
  k <> sd_id sdef -> Dict.get k (add_state active sdef) = Dict.get k active.
Proof.
  intros Hne. unfold add_state.
  destruct (String.eqb (sd_type sdef) "counter"); [now apply dict_get_setdefault_ne|].
  destruct (sd_duration sdef) as [dur|]; [|now apply dict_get_setdefault_ne].
  destruct (Dict.get (sd_id sdef) active) as [[r|]|];
    [destruct (String.eqb _ "extend")| |]; now apply dict_get_set_ne.
Qed.

Lemma index_fold_ids (states : list StateDef) :
  forall idx : gmap string StateDef,
    (forall k d, idx !! k = Some d -> sd_id d = k) ->
    forall k d, fold_left (fun idx s => <[sd_id s := s]> idx) states idx !! k = Some d ->
                sd_id d = k.
Proof.
  induction states as [|s rest IH]; intros idx Hidx k d; cbn [fold_left]; [apply Hidx|].
  apply IH. intros k' d'.
  destruct (decide (sd_id s = k')) as [<-|Hne].
  - rewrite lookup_insert_eq. now intros [= <-].
  - rewrite lookup_insert_ne by exact Hne. apply Hidx.
Qed.

Lemma index_states_id (states : list StateDef) (k : string) (d : StateDef) :
  index_states states !! k = Some d -> sd_id d = k.
Proof.
  apply index_fold_ids. intros k' d'. now rewrite lookup_empty.
Qed.

Section Rent.
Context {lm : Libm}.

End Rent.

(** ** Recency window *)

Lemma name_in_In (k : string) (l : list string) : name_in k l = true <-> In k l.
Proof.
  unfold name_in. rewrite existsb_exists. split.
  - intros (x & Hin & Heq). apply String.eqb_eq in Heq. now subst.
  - intros Hin. exists k. split; [exact Hin|apply String.eqb_refl].
Qed.

Lemma last_n_last_n {A : Type} (n : Z) (l : list A) :
  0 < n -> last_n n (last_n 40 l) = last_n (Z.min n 40) l.
Proof.
  intros Hn. unfold last_n. rewrite drop_drop, length_drop. f_equal. lia.
Qed.

Lemma note_recent_last_n (h : list string) (id : string) :
  note_recent (last_n 40 h) id = last_n 40 (h ++ [id]).
Proof.
  unfold note_recent, last_n.
  rewrite !length_app, length_drop. cbn [length].
  destruct (Nat.ltb_spec 40 (length h - (length h - Z.to_nat 40) + 1)) as [Hcut|Hkeep].
  - rewrite drop_app_le by (rewrite length_drop; lia).
    rewrite drop_drop.
    rewrite (drop_app_le h) by lia.
    do 2 f_equal. lia.
  - replace (length h - Z.to_nat 40)%nat with 0%nat by lia.
    replace (length h + 1 - Z.to_nat 40)%nat with 0%nat by lia.
    reflexivity.
Qed.

Lemma recent_fold (draws : list string) :
  forall h : list string,
    fold_left note_recent draws (last_n 40 h) = last_n 40 (h ++ draws).
Proof.
  induction draws as [|id rest IH]; intros h; cbn [fold_left].
  - now rewrite app_nil_r.
  - rewrite note_recent_last_n, IH, <- app_assoc. reflexivity.
Qed.


Section RecentInvariant.
Context {lm : Libm} {rg : RandomGen}.
Variables (pools : gmap string (list Event)) (state_index : gmap string StateDef)
          (cfg : Config).

Lemma turn_recent (month : Z) (st st' : RunState) :
  recent_inv st -> turn pools state_index cfg month st = Ok st' -> recent_inv st'.
Proof.
  unfold turn, recent_inv. intros Hinv H.
  destruct (draw_event _ _ _ _ _ _ _) as [[ev g1]|e]; [|discriminate].
  cbn in H.
  destruct (random_choice _ _) as [[ch g2]|e]; [|discriminate].
  cbn in H.
  destruct (apply_choice _ _ _ _ _ _ _) as [[[stats active] counters]|e]; [|discriminate].
  cbn in H. injection H as <-. cbn [rs_recent rs_log].
  rewrite Hinv, note_recent_last_n. reflexivity.
Qed.

Lemma evaluate_recent (st : RunState) :
  recent_inv st -> recent_inv (snd (evaluate cfg st)).
Proof. intros Hinv. exact Hinv. Qed.

Lemma run_turns_recent (month : Z) (n : nat) :
  forall (st st' : RunState) (dead : bool),
    recent_inv st ->
    run_turns n pools state_index cfg month st = Ok (dead, st') ->
    recent_inv st'.
Proof.
  induction n as [|n IH]; intros st st' dead Hinv H.
  - cbn in H. injection H as _ <-. exact Hinv.
  - cbn [run_turns] in H.
    destruct (turn pools state_index cfg month st) as [st1|e] eqn:Ht; [|discriminate].
    apply turn_recent in Ht; [|exact Hinv].
    cbn -[evaluate] in H.
    apply evaluate_recent in Ht.
    destruct (evaluate cfg st1) as [d st2]. cbn [snd] in Ht.
    destruct d.
    + injection H as _ <-. exact Ht.
    + apply (IH _ _ _ Ht H).
Qed.

Lemma run_month_recent (month : Z) (st st' : RunState) (dead : bool) :
  recent_inv st ->
  run_month pools state_index cfg month st = Ok (dead, st') ->
  recent_inv st'.
Proof.
  unfold run_month. intros Hinv H.
  destruct (apply_state_monthly _ _ _ _ _ _) as [[[stats active] counters]|e]; [|discriminate].
  cbn in H.
  destruct (run_turns _ _ _ _ _ _) as [[d st1]|e] eqn:Hr; [|discriminate].
  cbn in H.
  apply run_turns_recent in Hr; [|exact Hinv].
  destruct d.
  - injection H as _ <-. exact Hr.
  - destruct (month_end_rent _ _ _ _ _) as [[stats2 active2]|e]; [|discriminate].
    cbn -[evaluate] in H.
    match type of H with Ok (evaluate cfg ?s) = _ =>
      assert (Hs : recent_inv s) by exact Hr;
      apply evaluate_recent in Hs;
      destruct (evaluate cfg s) as [d2 st2]
    end.
    injection H as _ <-. exact Hs.
Qed.

Lemma run_months_recent (n : nat) :
  forall (month : Z) (st st' : RunState) (dead : bool),
    recent_inv st ->
    run_months n pools state_index cfg month st = Ok (dead, st') ->
    recent_inv st'.
Proof.
  induction n as [|n IH]; intros month st st' dead Hinv H.
  - cbn in H. injection H as _ <-. exact Hinv.
  - cbn [run_months] in H.
    destruct (run_month pools state_index cfg month st) as [[d st1]|e] eqn:Hm; [|discriminate].
    cbn in H.
    apply run_month_recent in Hm; [|exact Hinv].
    destruct d.
    + injection H as _ <-. exact Hm.
    + apply (IH _ _ _ _ Hm H).
Qed.
End RecentInvariant.

Section RecentRun.
Context {lm : Libm} {rg : RandomGen}.

Lemma run_recent (events : list Event) (states : list StateDef) (cfg : Config) (seed : Z)
    (g : rng) (dead : bool) (st : RunState) :
  run events states cfg seed g = Ok (dead, st) ->
  rs_recent st = last_n 40 (drawn_ids (rs_log st)).
Proof.
  unfold run, setup. intros H.
  destruct (index_states states !! "S_RENT_DUE") as [due|]; [|discriminate].
  cbn in H.
  destruct (index_states states !! "S_PAYCHECK") as [paycheck|]; [|discriminate].
  cbn in H.
  eapply run_months_recent; [|exact H]. reflexivity.
Qed.
End RecentRun.

Section Recency.
Context {lm : Libm} {rg : RandomGen}.

(** C8 (amended): a run keeps the ids of its 40 newest draws only, so a
    candidate's weight base_weight / (1 + times_seen)^beta is multiplied by
    the recency penalty exactly when the window N is positive and the id is
    among the last min(N, 40) drawn ids of the run. *)
Theorem recency_penalty_capped (cfg : Config) (seen_counts : gmap string Z)
    (draws : list string) (ev : Event) :
  let N := draw_recent_window (cfg_draw cfg) in
  let recent := fold_left note_recent draws [] in
  let seen := default 0 (seen_counts !! ev_id ev) in
  let base :=
    (default 1 (ev_base_weight ev)
     / float_pow (1 + inject_Z seen) (draw_anti_repeat_beta (cfg_draw cfg)))%Q in
  let w := candidate_weight seen_counts (recent_set_of recent cfg) cfg ev in
  recent = last_n 40 draws
  /\ (0 < N /\ In (ev_id ev) (last_n (Z.min N 40) draws) ->
      w = (base * draw_recent_penalty (cfg_draw cfg))%Q)
  /\ (~ (0 < N /\ In (ev_id ev) (last_n (Z.min N 40) draws)) -> w = base)
  /\ (forall events states seed g dead st,
         run events states cfg seed g = Ok (dead, st) ->
         rs_recent st = last_n 40 (drawn_ids (rs_log st))).
Proof.
  intros N recent seen base w.
  assert (Hrun : forall events states seed g dead st,
             run events states cfg seed g = Ok (dead, st) ->
             rs_recent st = last_n 40 (drawn_ids (rs_log st)))
    by (intros; eapply run_recent; eassumption).
  cut (recent = last_n 40 draws
       /\ (0 < N /\ In (ev_id ev) (last_n (Z.min N 40) draws) ->
           w = (base * draw_recent_penalty (cfg_draw cfg))%Q)
       /\ (~ (0 < N /\ In (ev_id ev) (last_n (Z.min N 40) draws)) -> w = base));
    [tauto|]. clear Hrun.
  assert (Hrecent : recent = last_n 40 draws) by apply (recent_fold draws []).
  split; [exact Hrecent|].
  subst w. unfold candidate_weight, recent_set_of. fold N. fold base. rewrite Hrecent.
  destruct (Z.ltb_spec 0 N) as [Hpos|Hneg].
  - rewrite last_n_last_n by exact Hpos.
    destruct (name_in (ev_id ev) (last_n (Z.min N 40) draws)) eqn:Hin.
    + split; [reflexivity|]. intros Hno. exfalso. apply Hno.
      split; [exact Hpos|now apply name_in_In].
    + split; [|reflexivity]. intros [_ Hyes].
      apply name_in_In in Hyes. congruence.
  - cbn. split; [|reflexivity]. intros [Hpos _]. lia.
Qed.
End Recency.

(** ** The two scaling paths *)

Section ScalingPaths.
Context {lm : Libm}.
Variables (stats : Stats) (cfg : Config).

Lemma dict_get_None_set {V : Type} (k : string) (x : V) (d : list (string * V)) :
  Dict.get k d = None -> Dict.set k x d = d ++ [(k, x)].
Proof.
  induction d as [|[k' v'] rest IH]; cbn; [reflexivity|].
  destruct (String.eqb k k'); [discriminate|]. intros H. now rewrite IH.
Qed.

Lemma dict_get_None_keys {V : Type} (k : string) (d : list (string * V)) :
  ~ In k (Dict.keys d) -> Dict.get k d = None.
Proof.
  induction d as [|[k' v'] rest IH]; cbn; [reflexivity|].
  intros Hnot. destruct (String.eqb_spec k k') as [->|Hne]; [exfalso; apply Hnot; now left|].
  apply IH. intros Hin. apply Hnot. right. exact Hin.
Qed.

Lemma map_absent_key (k : string) (x : Z) (d : list (string * Z)) :
  ~ In k (Dict.keys d) ->
  map (fun kv => if String.eqb (fst kv) k then (fst kv, x) else kv) d = d.
Proof.
  induction d as [|[k' v'] rest IH]; cbn; [reflexivity|].
  intros Hnot. destruct (String.eqb_spec k' k) as [->|Hne]; [exfalso; apply Hnot; now left|].
  f_equal. apply IH. intros Hin. apply Hnot. right. exact Hin.
Qed.

(** Replacing the value of a key that occurs once changes that entry only. *)
Lemma dict_set_map (k : string) (x : Z) (d : list (string * Z)) :
  List.NoDup (Dict.keys d) ->
  Dict.set k x d
  = (if Dict.mem k d then map (fun kv => if String.eqb (fst kv) k then (fst kv, x) else kv) d
     else d ++ [(k, x)]).
Proof.
  unfold Dict.mem.
  induction d as [|[k' v'] rest IH]; intros Hnd; cbn; [reflexivity|].
  inversion Hnd as [|? ? Hnotin Hnd']; subst.
  rewrite (String.eqb_sym k' k).
  destruct (String.eqb_spec k k') as [->|Hne].
  - f_equal. symmetry. now apply map_absent_key.
  - rewrite (IH Hnd'). destruct (Dict.get k rest); reflexivity.
Qed.

Lemma keys_map_fst (f : string * Z -> string * Z) (d : list (string * Z)) :
  (forall kv, fst (f kv) = fst kv) -> Dict.keys (map f d) = Dict.keys d.
Proof.
  intros Hf. unfold Dict.keys. rewrite List.map_map. apply List.map_ext. exact Hf.
Qed.

(** One pass of the loop of [apply_choice] over the recoverable attributes. *)
Lemma choice_step_map (G : string -> Z -> Z) (k : string) (d : list (string * Z)) :
  List.NoDup (Dict.keys d) ->
  match Dict.get k d with
  | Some v => if 0 <? v then Dict.set k (G k v) d else d
  | None => d
  end
  = map (fun kv => if String.eqb (fst kv) k && (0 <? snd kv)
                   then (fst kv, G (fst kv) (snd kv)) else kv) d.
Proof.
  induction d as [|[k' v'] rest IH]; intros Hnd; cbn; [reflexivity|].
  inversion Hnd as [|? ? Hnotin Hnd']; subst.
  rewrite (String.eqb_sym k' k).
  destruct (String.eqb_spec k k') as [->|Hne]; cbn.
  - assert (Hrest : map (fun kv => if String.eqb (fst kv) k' && (0 <? snd kv)
                                   then (fst kv, G (fst kv) (snd kv)) else kv) rest = rest).
    { clear - Hnotin. induction rest as [|[k2 v2] rest IH2]; cbn; [reflexivity|].
      destruct (String.eqb_spec k2 k') as [->|Hne2]; [exfalso; apply Hnotin; now left|].
      cbn. f_equal. apply IH2. intros Hin. apply Hnotin. right. exact Hin. }
    rewrite Hrest. destruct (0 <? v'); cbn; reflexivity.
  - rewrite <- (IH Hnd').
    destruct (Dict.get k rest) as [v|]; [|reflexivity].
    destruct (0 <? v); [|reflexivity].
    cbn. destruct (String.eqb_spec k k'); [congruence|reflexivity].
Qed.

Lemma choice_loop_map (d : list (string * Z)) :
  List.NoDup (Dict.keys d) ->
  fold_left
    (fun eff k =>
       match Dict.get k eff with
       | Some v =>
           if 0 <? v
           then Dict.set k (py_round (effective_gain (inject_Z v) (attr k stats) cfg)) eff
           else eff
       | None => eff
       end)
    recoverable_attrs d
  = map (scale_entry stats cfg) d.
Proof.
  intros Hnd. unfold recoverable_attrs. cbn [fold_left]. cbv beta.
  pose (G := fun k v => py_round (effective_gain (inject_Z v) (attr k stats) cfg)).
  assert (Hfst : forall k kv,
             fst (if String.eqb (fst kv) k && (0 <? snd kv)
                  then (fst kv, G (fst kv) (snd kv)) else kv) = fst kv)
    by (intros k kv; destruct (_ && _); reflexivity).
  pose proof (choice_step_map G "health" d Hnd) as H1.
  cbv beta delta [G] in H1. rewrite H1. clear H1.
  match goal with |- context [Dict.get "family" ?l] =>
    assert (Hnd2 : List.NoDup (Dict.keys l))
      by (rewrite keys_map_fst; [exact Hnd|apply Hfst]);
    pose proof (choice_step_map G "family" l Hnd2) as H2
  end.
  cbv beta delta [G] in H2. rewrite H2. clear H2.
  match goal with |- context [Dict.get "friendship" ?l] =>
    assert (Hnd3 : List.NoDup (Dict.keys l))
      by (rewrite keys_map_fst; [exact Hnd2|apply Hfst]);
    pose proof (choice_step_map G "friendship" l Hnd3) as H3
  end.
  cbv beta delta [G] in H3. rewrite H3. clear H3.
  rewrite !List.map_map. apply List.map_ext. intros [k v].
  unfold scale_entry, recoverable_attrs, name_in. cbn [fst snd existsb].
  destruct (String.eqb k "health") eqn:Eh;
    destruct (String.eqb k "family") eqn:Ef;
    destruct (String.eqb k "friendship") eqn:Er;
    destruct (0 <? v) eqn:Ev;
    repeat (cbn [fst snd andb orb]; rewrite ?Eh, ?Ef, ?Er, ?Ev);
    try reflexivity;
    exfalso;
    repeat match goal with H : String.eqb _ _ = true |- _ => apply String.eqb_eq in H end;
    congruence.
Qed.

(** That loop, when the loan penalty applies to no entry. *)
Lemma monthly_loop_map (loan : bool) (d : list (string * Z)) :
  (loan = false \/ forall v, In ("money", v) d -> v <= 0) ->
  forall acc : list (string * Z),
    List.NoDup (Dict.keys acc ++ Dict.keys d) ->
    fold_left (monthly_entry stats cfg loan) d acc = acc ++ map (scale_entry stats cfg) d.
Proof.
  induction d as [|[k v] rest IH]; intros Hloan acc Hnd; cbn [fold_left map].
  - now rewrite app_nil_r.
  - assert (Hfresh : Dict.get k acc = None).
    { apply dict_get_None_keys. intros Hin.
      apply List.NoDup_remove_2 in Hnd. apply Hnd. apply in_or_app. now left. }
    assert (Hstep : forall x,
               fold_left (monthly_entry stats cfg loan) rest (Dict.set k x acc)
               = (acc ++ [(k, x)]) ++ map (scale_entry stats cfg) rest).
    { intros x. rewrite dict_get_None_set by exact Hfresh. apply IH.
      - destruct Hloan as [->|Hm]; [now left|right]. intros v' Hin. apply Hm. now right.
      - unfold Dict.keys in *. rewrite map_app. cbn. rewrite <- app_assoc. exact Hnd. }
    assert (Hentry : monthly_entry stats cfg loan acc (k, v)
                     = Dict.set k (snd (scale_entry stats cfg (k, v))) acc).
    { unfold monthly_entry, scale_entry. cbn [fst snd].
      destruct (name_in k recoverable_attrs && (0 <? v)); [reflexivity|].
      assert (Hno : String.eqb k "money" && (0 <? v) && loan = false).
      { destruct Hloan as [->|Hm]; [apply andb_false_r|].
        destruct (String.eqb_spec k "money") as [->|?]; [|reflexivity].
        destruct (Z.ltb_spec 0 v); [|reflexivity].
        specialize (Hm v (or_introl eq_refl)). lia. }
      now rewrite Hno. }
    rewrite Hentry, Hstep, <- app_assoc. reflexivity.
Qed.

Lemma get_scaled_money (d : list (string * Z)) (m : Z) :
  Dict.get "money" (map (scale_entry stats cfg) d) = Some m -> In ("money", m) d.
Proof.
  induction d as [|[k v] rest IH]; [discriminate|].
  cbn [map Dict.get]. unfold scale_entry at 1. cbn [fst snd].
  destruct (String.eqb_spec "money" k) as [<-|Hne].
  - intros [= <-]. left. reflexivity.
  - intros H. right. now apply IH.
Qed.

(** The two paths agree on every effects mapping, unless a high-interest
    loan is active and the mapping holds a positive money delta: both hand
    the same dictionary to [apply_effects]. *)
Lemma scaling_paths_agree (ch : Choice) (sdef : StateDef) (active : Active) (month : Z) :
  ch_action ch = None ->
  sd_monthly_effect sdef = ch_effects ch ->
  List.NoDup (Dict.keys (ch_effects ch)) ->
  (Dict.mem "S_HIGH_INTEREST_LOAN" active = false
   \/ forall v, In ("money", v) (ch_effects ch) -> v <= 0) ->
  choice_effects stats ch active cfg month = monthly_effects stats sdef active cfg month.
Proof.
  intros Hact Heff Hnd Hloan.
  unfold choice_effects, monthly_effects. rewrite Hact, Heff.
  rewrite (choice_loop_map _ Hnd).
  rewrite (monthly_loop_map _ _ Hloan []) by exact Hnd.
  cbn [app].
  destruct (Dict.get "money" (map (scale_entry stats cfg) (ch_effects ch))) as [m|] eqn:Hm; [|reflexivity].
  destruct (Z.ltb_spec 0 m) as [Hpos|Hneg]; [|reflexivity].
  destruct Hloan as [->|Hall]; [reflexivity|].
  apply get_scaled_money in Hm. specialize (Hall m Hm). lia.
Qed.
End ScalingPaths.

(** * Further properties *)

(** * Further properties of the runner *)

(** ** Dictionaries with unique keys *)

Lemma dict_keys_set {V : Type} (k : string) (v : V) (d : list (string * V)) :
  Dict.keys (Dict.set k v d) = if Dict.mem k d then Dict.keys d else Dict.keys d ++ [k].
Proof.
  unfold Dict.mem.
  induction d as [|[k' v'] rest IH]; cbn [Dict.set Dict.get Dict.keys map fst app];
    [reflexivity|].
  destruct (String.eqb k k'); cbn [Dict.keys map fst]; [reflexivity|].
  unfold Dict.keys in IH. rewrite IH. now destruct (Dict.get k rest).
Qed.

Lemma dict_keys_setdefault {V : Type} (k : string) (v : V) (d : list (string * V)) :
  Dict.keys (Dict.setdefault k v d)
  = if Dict.mem k d then Dict.keys d else Dict.keys d ++ [k].
Proof.
  unfold Dict.setdefault. destruct (Dict.mem k d); [reflexivity|].
  unfold Dict.keys. now rewrite map_app.
Qed.

Lemma dict_mem_keys {V : Type} (k : string) (d : list (string * V)) :
  Dict.mem k d = true <-> In k (Dict.keys d).
Proof.
  unfold Dict.mem.
  induction d as [|[k' v'] rest IH]; cbn [Dict.get Dict.keys map fst In].
  - split; [discriminate|tauto].
  - destruct (String.eqb_spec k k') as [->|Hne].
    + split; [now left|reflexivity].
    + rewrite IH. unfold Dict.keys. split; [now right|]. intros [Heq|Hin]; [congruence|exact Hin].
Qed.

Lemma dict_keys_pop_in {V : Type} (k k' : string) (d : list (string * V)) :
  In k' (Dict.keys (Dict.pop k d)) -> In k' (Dict.keys d).
Proof.
  induction d as [|[k2 v2] rest IH]; cbn [Dict.pop Dict.keys map fst In]; [tauto|].
  destruct (String.eqb k k2); cbn [map fst In].
  - now right.
  - intros [Heq|Hin]; [now left|right; now apply IH].
Qed.

Lemma dict_pop_unique {V : Type} (k : string) (d : list (string * V)) :
  List.NoDup (Dict.keys d) ->
  List.NoDup (Dict.keys (Dict.pop k d)) /\ Dict.get k (Dict.pop k d) = None.
Proof.
  induction d as [|[k' v'] rest IH]; cbn [Dict.pop Dict.keys map fst]; intros Hnd.
  - split; [constructor|reflexivity].
  - inversion Hnd as [|? ? Hnotin Hnd']; subst.
    destruct (String.eqb_spec k k') as [->|Hne].
    + split; [exact Hnd'|]. destruct (Dict.get k' rest) eqn:Hg; [|reflexivity].
      exfalso. apply Hnotin. apply dict_mem_keys. unfold Dict.mem. now rewrite Hg.
    + destruct (IH Hnd') as [Hnd2 Hget]. split.
      * cbn [map fst]. constructor; [|exact Hnd2].
        intros Hin. apply Hnotin. eapply dict_keys_pop_in. exact Hin.
      * cbn [Dict.get]. destruct (String.eqb_spec k k'); [congruence|exact Hget].
Qed.

Lemma dict_pop_absent {V : Type} (k : string) (d : list (string * V)) :
  Dict.get k d = None -> Dict.pop k d = d.
Proof.
  induction d as [|[k' v'] rest IH]; cbn [Dict.pop Dict.get]; [reflexivity|].
  destruct (String.eqb k k'); [discriminate|]. intros H. now rewrite IH.
Qed.

Lemma dict_pop_app_fresh {V : Type} (k : string) (v : V) (d : list (string * V)) :
  Dict.get k d = None -> Dict.pop k (d ++ [(k, v)]) = d.
Proof.
  induction d as [|[k' v'] rest IH]; cbn [Dict.pop Dict.get app].
  - now rewrite String.eqb_refl.
  - destruct (String.eqb k k'); [discriminate|]. intros H. now rewrite IH.
Qed.

Lemma nodup_keys_snoc (keys : list string) (k : string) :
  List.NoDup keys -> ~ In k keys -> List.NoDup (keys ++ [k]).
Proof.
  intros Hnd Hnot. apply List.NoDup_app; [exact Hnd|repeat constructor; intros []|].
  intros x Hx [<-|[]]. exact (Hnot Hx).
Qed.

(** ** Condition registry *)

Lemma add_state_keys (active : Active) (sdef : StateDef) :
  Dict.keys (add_state active sdef)
  = if Dict.mem (sd_id sdef) active then Dict.keys active
    else Dict.keys active ++ [sd_id sdef].
Proof.
  unfold add_state.
  destruct (String.eqb (sd_type sdef) "counter"); [apply dict_keys_setdefault|].
  destruct (sd_duration sdef) as [dur|]; [|apply dict_keys_setdefault].
  unfold Dict.mem.
  destruct (Dict.get (sd_id sdef) active) as [[r|]|] eqn:Hg;
    [destruct (String.eqb _ "extend")| |];
    rewrite dict_keys_set; unfold Dict.mem; now rewrite Hg.
Qed.

Lemma add_state_unique (active : Active) (sdef : StateDef) :
  List.NoDup (Dict.keys active) -> List.NoDup (Dict.keys (add_state active sdef)).
Proof.
  intros Hnd. rewrite add_state_keys.
  destruct (Dict.mem (sd_id sdef) active) eqn:Hm; [exact Hnd|].
  apply nodup_keys_snoc; [exact Hnd|].
  intros Hin. apply dict_mem_keys in Hin. congruence.
Qed.

Lemma add_state_transient_get (active : Active) (sdef : StateDef) (dur : Z) :
  transient sdef dur ->
  Dict.get (sd_id sdef) (add_state active sdef)
  = Some (Some (match Dict.get (sd_id sdef) active with
                | Some (Some r) => if stacks_extend sdef then r + dur else dur
                | _ => dur
                end)).
Proof.
  unfold add_state, transient, stacks_extend. intros [Hc Hd]. rewrite Hc, Hd.
  destruct (Dict.get (sd_id sdef) active) as [[r|]|];
    [destruct (String.eqb _ "extend")| |]; apply dict_get_set_eq.
Qed.

Lemma add_state_fresh (active : Active) (sdef : StateDef) :
  Dict.get (sd_id sdef) active = None ->
  exists rem, add_state active sdef = active ++ [(sd_id sdef, rem)].
Proof.
  intros Hfresh. unfold add_state, Dict.setdefault, Dict.mem. rewrite Hfresh.
  destruct (String.eqb (sd_type sdef) "counter"); [now eexists|].
  destruct (sd_duration sdef) as [dur|]; [|now eexists].
  eexists. now apply dict_get_None_set.
Qed.

(** X5: what [add_state] leaves under the id of the condition.  A counter or
    a condition without duration is installed once, indefinite, and adding
    it again changes nothing.  A condition with a countdown is installed
    with its duration; adding it again adds the duration to the periods
    left when its stacking is "extend" and periods are left, and resets
    them to the duration otherwise. *)
Theorem add_state_lookup (active : Active) (sdef : StateDef) :
  let sid := sd_id sdef in
  (String.eqb (sd_type sdef) "counter" = true \/ sd_duration sdef = None ->
   match Dict.get sid active with
   | Some rem => add_state active sdef = active
   | None => add_state active sdef = active ++ [(sid, None)]
   end)
  /\ (forall dur, transient sdef dur ->
        Dict.get sid (add_state active sdef)
        = Some (Some (match Dict.get sid active with
                      | Some (Some r) => if stacks_extend sdef then r + dur else dur
                      | _ => dur
                      end))).
Proof.
  intros sid. subst sid. split.
  - intros Hkind. unfold add_state, Dict.setdefault, Dict.mem.
    destruct (String.eqb (sd_type sdef) "counter").
    + now destruct (Dict.get (sd_id sdef) active).
    + destruct Hkind as [Hc|Hd]; [discriminate|]. rewrite Hd.
      now destruct (Dict.get (sd_id sdef) active).
  - intros dur Ht. now apply add_state_transient_get.
Qed.

(** X6: adding a countdown condition that is not active [n] times in a row
    (n >= 1) leaves n times its duration with stacking "extend" and its
    duration with any other stacking; the other conditions are untouched. *)
Theorem add_state_repeated (n : nat) (active : Active) (sdef : StateDef) (dur : Z) :
  transient sdef dur ->
  Dict.get (sd_id sdef) active = None ->
  Dict.get (sd_id sdef) (add_times (S n) active sdef)
  = Some (Some (if stacks_extend sdef then Z.of_nat (S n) * dur else dur))
  /\ forall k, k <> sd_id sdef ->
       Dict.get k (add_times (S n) active sdef) = Dict.get k active.
Proof.
  intros Ht Hfresh. split.
  - induction n as [|n IH].
    + cbn [add_times]. rewrite (add_state_transient_get active sdef dur Ht), Hfresh.
      destruct (stacks_extend sdef); f_equal; f_equal; lia.
    + change (add_times (S (S n)) active sdef)
        with (add_state (add_times (S n) active sdef) sdef).
      rewrite (add_state_transient_get _ sdef dur Ht), IH.
      destruct (stacks_extend sdef); f_equal; f_equal; lia.
  - intros k Hne. induction n as [|n IH].
    + cbn [add_times]. now apply add_state_other.
    + change (add_times (S (S n)) active sdef)
        with (add_state (add_times (S n) active sdef) sdef).
      rewrite add_state_other by exact Hne. exact IH.
Qed.

(** X7: [remove_state] on conditions with unique ids: the id is gone, the
    other conditions are untouched, the ids stay unique; removing an id
    that is not active changes nothing, and removing a condition right
    after adding it to conditions that did not hold it gives them back. *)
Theorem remove_state_round_trip (active : Active) (sdef : StateDef) (sid : string) :
  List.NoDup (Dict.keys active) ->
  Dict.get sid (remove_state active sid) = None
  /\ List.NoDup (Dict.keys (remove_state active sid))
  /\ (forall k, k <> sid -> Dict.get k (remove_state active sid) = Dict.get k active)
  /\ (Dict.get sid active = None -> remove_state active sid = active)
  /\ (Dict.get (sd_id sdef) active = None ->
      remove_state (add_state active sdef) (sd_id sdef) = active).
Proof.
  intros Hnd. unfold remove_state.
  destruct (dict_pop_unique sid active Hnd) as [Hnd' Hgone].
  repeat split; try assumption.
  - intros k Hne. now apply dict_get_pop_ne.
  - apply dict_pop_absent.
  - intros Hfresh. destruct (add_state_fresh active sdef Hfresh) as [rem ->].
    now apply dict_pop_app_fresh.
Qed.

Lemma index_states_find (states : list StateDef) (k : string) :
  index_states states !! k
  = List.find (fun s => String.eqb (sd_id s) k) (rev states).
Proof.
  unfold index_states.
  induction states as [|s rest IH] using rev_ind; [reflexivity|].
  rewrite fold_left_app, rev_app_distr. cbn [fold_left rev app List.find].
  destruct (String.eqb_spec (sd_id s) k) as [->|Hne].
  - apply lookup_insert_eq.
  - rewrite lookup_insert_ne by exact Hne. exact IH.
Qed.

(** ** Tag weights *)

Lemma scale_tag_keys (w : list (string * Q)) (tm : string * Q) :
  Dict.keys (scale_tag w tm) = Dict.keys w.
Proof.
  destruct tm as [t mult]. unfold scale_tag.
  destruct (Dict.get t w) eqn:Hg; [|reflexivity].
  rewrite dict_keys_set. unfold Dict.mem. now rewrite Hg.
Qed.

Lemma scale_tags_keys (mods : list (string * Q)) :
  forall w, Dict.keys (fold_left scale_tag mods w) = Dict.keys w.
Proof.
  induction mods as [|tm rest IH]; intros w; cbn [fold_left]; [reflexivity|].
  now rewrite IH, scale_tag_keys.
Qed.

Lemma qclamp_range (v lo hi : Q) :
  (lo <= hi)%Q -> (lo <= qclamp v lo hi)%Q /\ (qclamp v lo hi <= hi)%Q.
Proof.
  intros Hle. unfold qclamp. split.
  - apply Q.le_max_l.
  - apply Q.max_lub; [exact Hle|apply Q.le_min_l].
Qed.

Lemma tag_weights_keys (active_states : Active)
    (table : list (string * list (string * Q))) :
  Dict.keys (tag_weights active_states table) = TAGS.
Proof.
  unfold tag_weights.
  unfold Dict.keys at 1. rewrite List.map_map. cbn [fst].
  change (map (fun x : string * Q => fst x) ?l) with (Dict.keys l).
  assert (Hfold : forall sids w,
             Dict.keys (fold_left
                          (fun w sid =>
                             match Dict.get sid table with
                             | None => w
                             | Some mods => fold_left scale_tag mods w
                             end) sids w) = Dict.keys w).
  { induction sids as [|sid rest IH]; intros w; cbn [fold_left]; [reflexivity|].
    rewrite IH. destruct (Dict.get sid table); [apply scale_tags_keys|reflexivity]. }
  rewrite Hfold. reflexivity.
Qed.

(** X9: whatever conditions are active and whatever multipliers the table
    holds, [tag_weights] returns one weight for each of the eight tags, in
    the order of [TAGS], and every weight lies in [0.75, 1.55]. *)
Theorem tag_weights_bounded (active_states : Active)
    (table : list (string * list (string * Q))) :
  Dict.keys (tag_weights active_states table) = TAGS
  /\ forall t w, In (t, w) (tag_weights active_states table) ->
       (0.75 <= w)%Q /\ (w <= 1.55)%Q.
Proof.
  split; [apply tag_weights_keys|]. unfold tag_weights.
  - intros t w Hin. apply List.in_map_iff in Hin. destruct Hin as ([t' w'] & Heq & _).
    injection Heq as _ <-. apply qclamp_range. discriminate.
Qed.

(** ** Effects on the stats *)

Lemma stats_get_names (k : string) (s : Stats) :
  stats_get k s = None <-> name_in k stat_names = false.
Proof.
  unfold stats_get, stat_names, name_in. cbn [existsb].
  destruct (String.eqb k "money"); [easy|].
  destruct (String.eqb k "health"); [easy|].
  destruct (String.eqb k "stress"); [easy|].
  destruct (String.eqb k "family"); [easy|].
  destruct (String.eqb k "friendship"); easy.
Qed.

Ltac split_keys :=
  repeat match goal with
         | |- context [String.eqb ?a ?b] =>
             destruct (String.eqb_spec a b); subst; try congruence; try discriminate
         end.

Lemma stats_get_set (k k' : string) (v : Z) (s : Stats) :
  stats_get k (stats_set k' v s)
  = if String.eqb k k'
    then match stats_get k s with Some _ => Some v | None => None end
    else stats_get k s.
Proof.
  unfold stats_get, stats_set. split_keys; reflexivity.
Qed.

(** One effect, read through [stats_get]. *)
Lemma apply_effect_get (s : Stats) (k k' : string) (dv : Z) :
  stats_get k (apply_effect s (k', dv))
  = if String.eqb k k'
    then match stats_get k s with
         | Some v => Some (if name_in k clamped_attrs then clamp (v + dv) 0 100 else v + dv)
         | None => None
         end
    else stats_get k s.
Proof.
  unfold apply_effect.
  destruct (String.eqb_spec k k') as [<-|Hne].
  - destruct (stats_get k s) as [v|] eqn:Hg; [|now rewrite Hg].
    destruct (name_in k clamped_attrs).
    + rewrite !stats_get_set, String.eqb_refl, Hg. reflexivity.
    + rewrite stats_get_set, String.eqb_refl, Hg. reflexivity.
  - destruct (stats_get k' s) as [v|]; [|reflexivity].
    assert (Hb : String.eqb k k' = false) by now apply String.eqb_neq.
    destruct (name_in k' clamped_attrs); rewrite !stats_get_set, Hb; reflexivity.
Qed.

Lemma dict_get_in {V : Type} (k : string) (v : V) (d : list (string * V)) :
  List.NoDup (Dict.keys d) -> (Dict.get k d = Some v <-> In (k, v) d).
Proof.
  induction d as [|[k' v'] rest IH]; cbn [Dict.get Dict.keys map fst In]; intros Hnd.
  - split; [discriminate|tauto].
  - inversion Hnd as [|? ? Hnotin Hnd']; subst.
    destruct (String.eqb_spec k k') as [->|Hne].
    + split; [intros [= ->]; now left|].
      intros [[= ->]|Hin]; [reflexivity|].
      exfalso. apply Hnotin. change k' with (fst (k', v)). now apply in_map.
    + rewrite (IH Hnd'). split; [now right|]. intros [[= ? ?]|Hin]; [congruence|exact Hin].
Qed.

Lemma stats_ext (s1 s2 : Stats) :
  (forall k, stats_get k s1 = stats_get k s2) -> s1 = s2.
Proof.
  intros H. destruct s1, s2.
  pose proof (H "money") as Hm. pose proof (H "health") as Hh.
  pose proof (H "stress") as Hs. pose proof (H "family") as Hf.
  pose proof (H "friendship") as Hr.
  cbn in Hm, Hh, Hs, Hf, Hr. congruence.
Qed.

Lemma apply_effects_get (effects : list (string * Z)) :
  List.NoDup (Dict.keys effects) ->
  forall (s : Stats) (k : string),
    stats_get k (apply_effects s effects)
    = match stats_get k s with
      | Some v =>
          Some (match Dict.get k effects with
                | Some dv => if name_in k clamped_attrs then clamp (v + dv) 0 100 else v + dv
                | None => v
                end)
      | None => None
      end.
Proof.
  unfold apply_effects.
  induction effects as [|[k' dv] rest IH]; intros Hnd s k; cbn [fold_left Dict.get].
  - now destruct (stats_get k s).
  - inversion Hnd as [|? ? Hnotin Hnd']; subst.
    rewrite (IH Hnd'), apply_effect_get.
    destruct (String.eqb_spec k k') as [->|Hne]; [|reflexivity].
    destruct (stats_get k' s); [|reflexivity].
    now rewrite (dict_get_None_keys k' rest Hnotin).
Qed.

(** X1: on an effects mapping (keys are unique) [apply_effects] does to each
    attribute what its one delta says: a clamped attribute becomes
    clamp(value + delta, 0, 100), money becomes value + delta, an attribute
    without delta is kept; so the result does not depend on the order in
    which the mapping is iterated. *)
Theorem apply_effects_by_key (s : Stats) (effects : list (string * Z)) :
  List.NoDup (Dict.keys effects) ->
  (forall k v,
      stats_get k s = Some v ->
      stats_get k (apply_effects s effects)
      = Some (match Dict.get k effects with
              | Some dv => if name_in k clamped_attrs then clamp (v + dv) 0 100 else v + dv
              | None => v
              end))
  /\ forall effects', Permutation effects effects' ->
       apply_effects s effects' = apply_effects s effects.
Proof.
  intros Hnd. split.
  - intros k v Hg. now rewrite (apply_effects_get effects Hnd), Hg.
  - intros effects' Hperm.
    assert (Hnd' : List.NoDup (Dict.keys effects')).
    { unfold Dict.keys. eapply Permutation_NoDup; [|exact Hnd].
      now apply Permutation_map. }
    apply stats_ext. intros k.
    rewrite (apply_effects_get effects Hnd), (apply_effects_get effects' Hnd').
    destruct (stats_get k s) as [v|]; [|reflexivity].
    assert (Hsame : Dict.get k effects' = Dict.get k effects).
    { destruct (Dict.get k effects) as [dv|] eqn:Hg.
      - apply dict_get_in; [exact Hnd'|]. eapply Permutation_in; [exact Hperm|].
        now apply dict_get_in.
      - destruct (Dict.get k effects') as [dv'|] eqn:Hg'; [|reflexivity].
        apply dict_get_in in Hg'; [|exact Hnd'].
        apply (Permutation_in _ (Permutation_sym Hperm)) in Hg'.
        apply dict_get_in in Hg'; [congruence|exact Hnd]. }
    now rewrite Hsame.
Qed.

(** X2: an effect on a key that is not one of the five stats is ignored:
    dropping such entries from the effects changes nothing, for any effects
    (no error, no new key). *)
Theorem apply_effects_ignores_unknown (s : Stats) (effects : list (string * Z)) :
  apply_effects s effects
  = apply_effects s (List.filter (fun kv => name_in (fst kv) stat_names) effects).
Proof.
  unfold apply_effects. revert s.
  induction effects as [|[k dv] rest IH]; intros s; cbn [fold_left List.filter fst];
    [reflexivity|].
  destruct (name_in k stat_names) eqn:Hk; cbn [fold_left]; [apply IH|].
  rewrite <- IH. f_equal. unfold apply_effect.
  now rewrite (proj2 (stats_get_names k s) Hk).
Qed.

(** ** Rounding and the passive tick *)

(** [int(round(x))] is within a half of [x]. *)
Lemma py_round_near (x : Q) :
  (inject_Z (py_round x) - (1 # 2) <= x)%Q /\ (x <= inject_Z (py_round x) + (1 # 2))%Q.
Proof.
  unfold py_round.
  pose proof (Qfloor_le x) as Hlo. pose proof (Qlt_floor x) as Hhi.
  rewrite inject_Z_plus in Hhi. change (inject_Z 1) with 1%Q in Hhi.
  destruct (Qcompare (x - inject_Z (Qfloor x)) (1 # 2)) eqn:Hc.
  - apply Qeq_alt in Hc.
    destruct (Z.even (Qfloor x));
      [|rewrite inject_Z_plus; change (inject_Z 1) with 1%Q]; split; lra.
  - apply Qlt_alt in Hc. split; lra.
  - apply Qgt_alt in Hc. rewrite inject_Z_plus. change (inject_Z 1) with 1%Q. split; lra.
Qed.

Lemma py_round_between (x : Q) (lo hi : Z) :
  (inject_Z lo <= x)%Q -> (x <= inject_Z hi)%Q -> lo <= py_round x <= hi.
Proof.
  intros Hlo Hhi. destruct (py_round_near x) as [Hn1 Hn2].
  split.
  - apply Z.lt_succ_r, Z.lt_pred_lt_succ. rewrite Zlt_Qlt.
    unfold Z.pred. rewrite inject_Z_plus. change (inject_Z (-1)) with (-1)%Q. lra.
  - apply Z.lt_succ_r. rewrite Zlt_Qlt. unfold Z.succ. rewrite inject_Z_plus.
    change (inject_Z 1) with 1%Q. lra.
Qed.

Lemma py_round_nonpos (x : Q) : (x <= 0)%Q -> py_round x <= 0.
Proof.
  intros Hx. destruct (py_round_near x) as [Hn _].
  apply Z.lt_succ_r. rewrite Zlt_Qlt. change (inject_Z (Z.succ 0)) with 1%Q. lra.
Qed.

Section PassiveTick.
Context {lm : Libm}.


(** X4: the passive tick of a month leaves money alone and leaves health,
    stress, family and friendship in [0, 100], whatever they were; with a
    stress decay rate that is not negative and health and friendship not
    below 0, it does not raise a stress that was in [0, 100]. *)
Theorem monthly_passive_bounds (stats : Stats) (cfg : Config) :
  let stats' := monthly_passive stats cfg in
  money stats' = money stats
  /\ 0 <= health stats' <= 100 /\ 0 <= stress stats' <= 100
  /\ 0 <= family stats' <= 100 /\ 0 <= friendship stats' <= 100
  /\ ((0 <= mp_stress_base_decay (rec_monthly_passive (cfg_recovery cfg)))%Q ->
      0 <= health stats -> 0 <= friendship stats -> 0 <= stress stats <= 100 ->
      stress stats' <= stress stats).
Proof.
  intros stats'. subst stats'. unfold monthly_passive.
  destruct stats as [m h s f r].
  cbn -[py_round effective_gain clamp Qmult Qplus Qdiv Qminus Qopp inject_Z].
  pose proof clamp_range as Hc.
  repeat (split; [first [reflexivity | apply Hc]|]).
  intros Hdecay Hhealth Hfriend Hstress.
  match goal with |- context [py_round ?q] =>
    assert (Hds : py_round q <= 0)
  end.
  { apply py_round_nonpos.
    rewrite Zle_Qle in Hhealth, Hfriend. change (inject_Z 0) with 0%Q in *.
    assert (Hsum : (0 <= 0.6 + inject_Z h / 140 + inject_Z r / 250)%Q).
    { assert (0 <= inject_Z h / 140)%Q
        by (apply Qle_shift_div_l; [reflexivity|lra]).
      assert (0 <= inject_Z r / 250)%Q
        by (apply Qle_shift_div_l; [reflexivity|lra]).
      lra. }
    nra. }
  unfold clamp. lia.
Qed.
End PassiveTick.

(** ** Draws *)

Lemma wc_scan_in {A : Type} (items : list A) :
  forall (weights : list Q) (r acc : Q) (it : A),
    wc_scan r acc (zip items weights) = Some it -> In it items.
Proof.
  induction items as [|x xs IH]; intros weights r acc it; [discriminate|].
  destruct weights as [|w ws]; [discriminate|].
  cbn [zip zip_with wc_scan].
  destruct (Qle_bool r (acc + w)).
  - intros [= ->]. now left.
  - intros H. right. eapply IH. exact H.
Qed.

Lemma last_in {A : Type} (items : list A) (it : A) : last items = Some it -> In it items.
Proof.
  induction items as [|x [|y ys] IH]; [discriminate| |].
  - intros [= ->]. now left.
  - intros H. right. now apply IH.
Qed.

Section Choices.
Context {rg : RandomGen} {A : Type}.

Lemma weighted_choice_cases (items : list A) (weights : list Q) (g : rng) :
  match items with
  | [] => weighted_choice items weights g = Raise IndexError
  | _ => exists it, weighted_choice items weights g = Ok (it, snd (random_random g))
                    /\ In it items
  end.
Proof.
  unfold weighted_choice. destruct (random_random g) as [u g1]. cbn [snd].
  destruct items as [|x xs]; [reflexivity|].
  destruct (wc_scan _ _ _) as [it|] eqn:Hscan.
  - exists it. split; [reflexivity|]. eapply wc_scan_in. exact Hscan.
  - destruct (last (x :: xs)) as [it|] eqn:Hlast.
    + exists it. split; [reflexivity|]. now apply last_in.
    + apply last_None in Hlast. discriminate.
Qed.

Lemma weighted_choice_in (items : list A) (weights : list Q) (g g' : rng) (it : A) :
  weighted_choice items weights g = Ok (it, g') -> In it items.
Proof.
  intros H. pose proof (weighted_choice_cases items weights g) as Hc.
  destruct items as [|x xs]; [congruence|].
  destruct Hc as (it' & Heq & Hin). congruence.
Qed.

(** X10: [weighted_choice] fails on an empty list of items only; on any other
    list, with any weights (too few, too many, zero, negative), it consumes
    one number of the generator and returns one of the items. *)
Theorem weighted_choice_member (items : list A) (weights : list Q) (g : rng) :
  (items = [] -> weighted_choice items weights g = Raise IndexError)
  /\ (items <> [] ->
      exists it, weighted_choice items weights g = Ok (it, snd (random_random g))
                 /\ In it items).
Proof.
  pose proof (weighted_choice_cases items weights g) as Hc.
  destruct items as [|x xs]; split; intros H; try congruence; exact Hc.
Qed.

Lemma random_choice_cases (seq : list A) (g : rng) :
  (seq = [] -> random_choice seq g = Raise IndexError)
  /\ (seq <> [] ->
      exists x, random_choice seq g = Ok (x, snd (random_randbelow (length seq) g))
                /\ In x seq).
Proof.
  destruct seq as [|a rest]; split; intros Hseq; try congruence; [reflexivity|].
  unfold random_choice.
  pose proof (random_randbelow_lt (length (a :: rest)) g) as Hlt.
  destruct (random_randbelow (length (a :: rest)) g) as [i g1]. cbn [fst snd] in *.
  destruct ((a :: rest) !! i) as [x|] eqn:Hx.
  - exists x. split; [reflexivity|]. apply list_elem_of_In.
    eapply list_elem_of_lookup_2. exact Hx.
  - apply lookup_ge_None in Hx. cbn [length] in *. lia.
Qed.
End Choices.

Section DrawEvent.
Context {lm : Libm} {rg : RandomGen}.

Lemma draw_event_cases (events : list Event) (active : Active)
    (seen_counts : gmap string Z) (recent : list string) (cfg : Config) (g : rng) :
  match draw_event (build_pools events) active seen_counts recent cfg state_tag_mult g with
  | Ok (ev, _) => In ev events /\ In (ev_primary_tag ev) TAGS
  | Raise e =>
      exists tag, e = KeyError tag /\ In tag TAGS
                  /\ forall ev, In ev events -> ev_primary_tag ev <> tag
  end.
Proof.
  unfold draw_event.
  pose proof (tag_weights_keys active state_tag_mult) as Hkeys.
  destruct (weighted_choice _ _ g) as [[tag g1]|e] eqn:Htag.
  - apply weighted_choice_in in Htag. rewrite Hkeys in Htag.
    cbn [mbind result_bind]. rewrite build_pools_lookup.
    destruct (List.filter (has_tag tag) events) as [|e0 pool] eqn:Hpool.
    + cbn. exists tag. split; [reflexivity|]. split; [exact Htag|].
      intros ev Hin Heq.
      assert (Hf : In ev (List.filter (has_tag tag) events)).
      { apply List.filter_In. split; [exact Hin|]. now apply String.eqb_eq. }
      rewrite Hpool in Hf. exact Hf.
    + cbn [from_option mbind result_bind].
      pose proof (weighted_choice_cases (e0 :: pool)
                    (map (candidate_weight seen_counts (recent_set_of recent cfg) cfg)
                       (e0 :: pool)) g1) as (ev & Heq & Hin).
      rewrite Heq. rewrite <- Hpool in Hin. apply List.filter_In in Hin.
      destruct Hin as [Hin Htagged]. apply String.eqb_eq in Htagged.
      split; [exact Hin|]. now rewrite Htagged.
  - exfalso.
    pose proof (weighted_choice_cases (Dict.keys (tag_weights active state_tag_mult))
                  (Dict.values (tag_weights active state_tag_mult)) g) as Hc.
    rewrite Hkeys in Hc. destruct Hc as (it & Heq & _). congruence.
Qed.
End DrawEvent.

(** ** Applying a choice *)

Lemma add_loop_cases (state_index : gmap string StateDef) (adds : list string) :
  forall active : Active,
    match add_loop state_index adds active with
    | Ok _ => forall sid, In sid adds -> is_Some (state_index !! sid)
    | Raise e => exists sid, e = KeyError sid /\ In sid adds /\ state_index !! sid = None
    end.
Proof.
  unfold add_loop.
  induction adds as [|sid rest IH]; intros active; cbn [fold_result].
  - intros sid [].
  - destruct (state_index !! sid) as [sdef|] eqn:Hidx; cbn.
    + specialize (IH (add_state active sdef)).
      match goal with |- match ?r with _ => _ end => destruct r as [a|e] end.
      * intros sid' [<-|Hin]; [now rewrite Hidx|now apply IH].
      * destruct IH as (sid' & -> & Hin & Hnone). exists sid'. auto.
    + exists sid. auto.
Qed.

Lemma add_loop_unique (state_index : gmap string StateDef) (adds : list string) :
  forall active active' : Active,
    add_loop state_index adds active = Ok active' ->
    List.NoDup (Dict.keys active) -> List.NoDup (Dict.keys active').
Proof.
  unfold add_loop.
  induction adds as [|sid rest IH]; intros active active'; cbn [fold_result].
  - now intros [= <-].
  - destruct (state_index !! sid) as [sdef|]; cbn; [|discriminate].
    intros H Hnd. eapply IH; [exact H|]. now apply add_state_unique.
Qed.

Lemma add_loop_get (state_index : gmap string StateDef) (adds : list string) :
  keyed_by_id state_index ->
  forall active active' : Active,
    add_loop state_index adds active = Ok active' ->
    (forall sid, In sid adds -> Dict.mem sid active' = true)
    /\ (forall k, ~ In k adds -> Dict.get k active' = Dict.get k active).
Proof.
  intros Hkeyed. unfold add_loop.
  induction adds as [|sid rest IH]; intros active active'; cbn [fold_result].
  - intros [= <-]. split; [intros sid []|reflexivity].
  - destruct (state_index !! sid) as [sdef|] eqn:Hidx; cbn; [|discriminate].
    intros H. destruct (IH _ _ H) as [Hin Hout].
    pose proof (Hkeyed _ _ Hidx) as Hid.
    split.
    + intros sid' [<-|Hin']; [|now apply Hin].
      destruct (in_dec string_dec sid rest) as [Hr|Hr]; [now apply Hin|].
      unfold Dict.mem. rewrite (Hout sid Hr).
      pose proof (add_state_mem active sdef) as Hm. rewrite Hid in Hm. exact Hm.
    + intros k Hk. rewrite Hout by (intros Hin'; apply Hk; now right).
      apply add_state_other. intros ->. apply Hk. left. now rewrite Hid.
Qed.

(** The loop of [apply_choice] over [remove_states]. *)
Lemma remove_loop_result (removes : list string) :
  forall (stats : Stats) (active : Active) (counters : Z),
    fold_left
      (fun '(stats, active, counters) sid =>
         (stats, remove_state active sid,
          if String.eqb sid "S_RENT_ARREARS" then 0 else counters))
      removes (stats, active, counters)
    = (stats, fold_left remove_state removes active,
       if name_in "S_RENT_ARREARS" removes then 0 else counters).
Proof.
  induction removes as [|sid rest IH]; intros stats active counters; [reflexivity|].
  cbn [fold_left]. rewrite IH. unfold name_in. cbn [existsb].
  rewrite (String.eqb_sym "S_RENT_ARREARS" sid).
  destruct (String.eqb sid "S_RENT_ARREARS"); cbn [orb]; [|reflexivity].
  now destruct (existsb _ rest).
Qed.

Lemma remove_all_unique (removes : list string) :
  forall active : Active,
    List.NoDup (Dict.keys active) ->
    List.NoDup (Dict.keys (fold_left remove_state removes active))
    /\ (forall sid, In sid removes ->
                    Dict.get sid (fold_left remove_state removes active) = None)
    /\ (forall k, ~ In k removes ->
                  Dict.get k (fold_left remove_state removes active) = Dict.get k active).
Proof.
  induction removes as [|sid rest IH]; intros active Hnd; cbn [fold_left].
  - split; [exact Hnd|]. split; [intros sid []|reflexivity].
  - destruct (dict_pop_unique sid active Hnd) as [Hnd1 Hgone].
    destruct (IH (remove_state active sid) Hnd1) as (Hnd2 & Hin & Hout).
    split; [exact Hnd2|]. split.
    + intros sid' [<-|Hin']; [|now apply Hin].
      destruct (in_dec string_dec sid rest) as [Hr|Hr]; [now apply Hin|].
      now rewrite (Hout sid Hr).
    + intros k Hk. rewrite Hout by (intros Hin'; apply Hk; now right).
      unfold remove_state. apply dict_get_pop_ne. intros ->. apply Hk. now left.
Qed.

Section ApplyChoice.
Context {lm : Libm}.

Lemma apply_choice_unfold (stats : Stats) (ch : Choice) (active : Active) (counters : Z)
    (cfg : Config) (month : Z) (state_index : gmap string StateDef) :
  apply_choice stats ch active counters cfg month state_index
  = match add_loop state_index (ch_add_states ch) active with
    | Ok active1 =>
        Ok (apply_effects stats (choice_effects stats ch active cfg month),
            fold_left remove_state (ch_remove_states ch) active1,
            if name_in "S_RENT_ARREARS" (ch_remove_states ch) then 0 else counters)
    | Raise e => Raise e
    end.
Proof.
  unfold apply_choice, add_loop.
  destruct (fold_result _ (ch_add_states ch) active) as [active1|e]; [|reflexivity].
  cbn [mbind result_bind]. now rewrite remove_loop_result.
Qed.


(** X14: [apply_choice] adds first and removes last.  On active conditions
    with unique ids and a registry keyed by id, after a choice that went
    through: the ids are still unique; every id of [remove_states] is
    inactive, even one that [add_states] names too; every other id of
    [add_states] is active; a condition named by neither list is as it was;
    and the arrears counter is 0 when [remove_states] names the arrears
    condition and unchanged otherwise. *)
Theorem apply_choice_conditions (stats : Stats) (ch : Choice) (active : Active)
    (counters : Z) (cfg : Config) (month : Z) (state_index : gmap string StateDef)
    (stats' : Stats) (active' : Active) (counters' : Z) :
  keyed_by_id state_index ->
  List.NoDup (Dict.keys active) ->
  apply_choice stats ch active counters cfg month state_index
  = Ok (stats', active', counters') ->
  List.NoDup (Dict.keys active')
  /\ (forall sid, In sid (ch_remove_states ch) -> Dict.get sid active' = None)
  /\ (forall sid, In sid (ch_add_states ch) -> ~ In sid (ch_remove_states ch) ->
                  Dict.mem sid active' = true)
  /\ (forall sid, ~ In sid (ch_add_states ch) -> ~ In sid (ch_remove_states ch) ->
                  Dict.get sid active' = Dict.get sid active)
  /\ counters' = (if name_in "S_RENT_ARREARS" (ch_remove_states ch) then 0 else counters).
Proof.
  intros Hkeyed Hnd. rewrite apply_choice_unfold.
  destruct (add_loop state_index (ch_add_states ch) active) as [active1|e] eqn:Hadd;
    [|discriminate].
  intros [= <- <- <-].
  pose proof (add_loop_unique _ _ _ _ Hadd Hnd) as Hnd1.
  destruct (add_loop_get _ _ Hkeyed _ _ Hadd) as [Hadded Hkept].
  destruct (remove_all_unique (ch_remove_states ch) active1 Hnd1) as (Hnd2 & Hgone & Hrest).
  split; [exact Hnd2|]. split; [exact Hgone|]. split; [|split; [|reflexivity]].
  - intros sid Hin Hnot. unfold Dict.mem. rewrite (Hrest sid Hnot). now apply Hadded.
  - intros sid Hna Hnr. rewrite (Hrest sid Hnr). now apply Hkept.
Qed.
End ApplyChoice.

(** ** The monthly tick of the conditions *)

Lemma dict_get_middle {V : Type} (k : string) (v : V) (pre post : list (string * V)) :
  ~ In k (Dict.keys pre) -> Dict.get k (pre ++ (k, v) :: post) = Some v.
Proof.
  intros Hnot. rewrite dict_get_app, (dict_get_None_keys k pre Hnot).
  cbn [Dict.get]. now rewrite String.eqb_refl.
Qed.

Lemma dict_set_middle {V : Type} (k : string) (v x : V) (pre post : list (string * V)) :
  ~ In k (Dict.keys pre) ->
  Dict.set k x (pre ++ (k, v) :: post) = pre ++ (k, x) :: post.
Proof.
  induction pre as [|[k' v'] pre IH]; cbn [Dict.set Dict.keys map fst app In]; intros Hnot.
  - now rewrite String.eqb_refl.
  - destruct (String.eqb_spec k k') as [->|Hne]; [exfalso; apply Hnot; now left|].
    f_equal. apply IH. intros Hin. apply Hnot. now right.
Qed.

Lemma dict_pop_middle {V : Type} (k : string) (v : V) (pre post : list (string * V)) :
  ~ In k (Dict.keys pre) ->
  Dict.pop k (pre ++ (k, v) :: post) = pre ++ post.
Proof.
  induction pre as [|[k' v'] pre IH]; cbn [Dict.pop Dict.keys map fst app In]; intros Hnot.
  - now rewrite String.eqb_refl.
  - destruct (String.eqb_spec k k') as [->|Hne]; [exfalso; apply Hnot; now left|].
    f_equal. apply IH. intros Hin. apply Hnot. now right.
Qed.

Lemma dict_mem_app {V : Type} (k : string) (d e : list (string * V)) :
  Dict.mem k (d ++ e) = Dict.mem k d || Dict.mem k e.
Proof.
  unfold Dict.mem. rewrite dict_get_app. now destruct (Dict.get k d).
Qed.

Lemma keys_app {V : Type} (d e : list (string * V)) :
  Dict.keys (d ++ e) = Dict.keys d ++ Dict.keys e.
Proof. unfold Dict.keys. apply map_app. Qed.

Section MonthlyTick.
Context {lm : Libm}.
Variables (cfg : Config) (month : Z) (state_index : gmap string StateDef).

(** One pass of the loop, for the condition that comes after [done]. *)
Lemma monthly_step_cases (done rest : Active) (sid : string) (rem : option Z)
    (stats : Stats) (counters : Z) :
  ~ In sid (Dict.keys done) ->
  match state_index !! sid with
  | None =>
      state_monthly_step cfg month state_index
        (stats, done ++ (sid, rem) :: rest, counters) sid
      = Raise (KeyError sid)
  | Some _ =>
      exists stats1,
        state_monthly_step cfg month state_index
          (stats, done ++ (sid, rem) :: rest, counters) sid
        = Ok (stats1,
              (done ++ option_list (tick_entry state_index (sid, rem))) ++ rest,
              counters + (if String.eqb sid "S_RENT_ARREARS"
                             && is_counter state_index "S_RENT_ARREARS"
                          then 1 else 0))
  end.
Proof.
  intros Hfresh. unfold state_monthly_step, tick_entry, is_counter. cbn [fst snd].
  destruct (state_index !! sid) as [sdef|] eqn:Hidx; [|reflexivity].
  cbn [from_option mbind result_bind].
  eexists.
  destruct (String.eqb (sd_type sdef) "counter") eqn:Htype.
  - cbn [option_list]. rewrite <- app_assoc. cbn [app].
    destruct (String.eqb_spec sid "S_RENT_ARREARS") as [->|Hne]; cbn [andb].
    + rewrite Hidx, Htype. reflexivity.
    + f_equal. f_equal. lia.
  - assert (Hno : String.eqb sid "S_RENT_ARREARS"
                  && match state_index !! "S_RENT_ARREARS" with
                     | Some sdef0 => String.eqb (sd_type sdef0) "counter"
                     | None => false
                     end = false).
    { destruct (String.eqb_spec sid "S_RENT_ARREARS") as [->|Hne]; [|reflexivity].
      now rewrite Hidx, Htype. }
    rewrite Hno, Z.add_0_r.
    rewrite (dict_get_middle sid rem done rest Hfresh). cbn [from_option mbind result_bind].
    destruct rem as [r|].
    + destruct (r - 1 <=? 0).
      * rewrite (dict_pop_middle sid (Some r) done rest Hfresh).
        cbn [option_list]. now rewrite app_nil_r.
      * rewrite (dict_set_middle sid (Some r) (Some (r - 1)) done rest Hfresh).
        cbn [option_list]. now rewrite <- app_assoc.
    + cbn [option_list]. now rewrite <- app_assoc.
Qed.

Lemma keys_option_list (e : string * option Z) :
  forall k, In k (Dict.keys (option_list (tick_entry state_index e))) -> k = fst e.
Proof.
  intros k. unfold tick_entry.
  destruct (is_counter state_index (fst e)); [cbn; intuition|].
  destruct (snd e) as [r|]; [destruct (r - 1 <=? 0)|]; cbn; intuition.
Qed.

(** The loop of [apply_state_monthly] from the middle: [done] has been
    processed, [todo] is still to come. *)
Lemma monthly_fold (todo : list (string * option Z)) :
  forall (done : Active) (stats : Stats) (counters : Z),
    List.NoDup (Dict.keys (done ++ todo)) ->
    match fold_result (state_monthly_step cfg month state_index) (Dict.keys todo)
            (stats, done ++ todo, counters) with
    | Ok (_, active', counters') =>
        active' = done ++ omap (tick_entry state_index) todo
        /\ counters'
           = counters + (if Dict.mem "S_RENT_ARREARS" todo
                            && is_counter state_index "S_RENT_ARREARS"
                         then 1 else 0)
        /\ forall sid, In sid (Dict.keys todo) -> is_Some (state_index !! sid)
    | Raise e =>
        exists sid, e = KeyError sid /\ In sid (Dict.keys todo)
                    /\ state_index !! sid = None
    end.
Proof.
  induction todo as [|[sid rem] rest IH]; intros done stats counters Hnd.
  - cbn [Dict.keys map fold_result omap list_omap]. rewrite !app_nil_r.
    split; [reflexivity|]. split; [cbn; lia|intros sid []].
  - rewrite keys_app in Hnd. cbn [Dict.keys map fst] in Hnd.
    pose proof (List.NoDup_remove_2 _ _ _ Hnd) as Hnot.
    pose proof (List.NoDup_remove_1 _ _ _ Hnd) as Hnd0.
    assert (Hfresh : ~ In sid (Dict.keys done))
      by (intros Hin; apply Hnot; apply in_or_app; now left).
    assert (Hrest : ~ In sid (Dict.keys rest))
      by (intros Hin; apply Hnot; apply in_or_app; now right).
    change (Dict.keys ((sid, rem) :: rest)) with (sid :: Dict.keys rest).
    cbn [fold_result].
    pose proof (monthly_step_cases done rest sid rem stats counters Hfresh) as Hstep.
    destruct (state_index !! sid) as [sdef|] eqn:Hidx.
    2:{ rewrite Hstep. cbn. exists sid. split; [reflexivity|]. split; [now left|exact Hidx]. }
    destruct Hstep as [stats1 ->]. cbn [mbind result_bind].
    assert (Hnd1 : List.NoDup
                     (Dict.keys ((done ++ option_list (tick_entry state_index (sid, rem)))
                                 ++ rest))).
    { rewrite !keys_app.
      destruct (option_list (tick_entry state_index (sid, rem))) as [|e [|e' l]] eqn:Hol.
      - cbn. now rewrite app_nil_r.
      - assert (Heq : fst e = sid).
        { pose proof (keys_option_list (sid, rem) (fst e)) as Hk.
          rewrite Hol in Hk. apply Hk. now left. }
        cbn [Dict.keys map]. rewrite Heq, <- app_assoc. exact Hnd.
      - exfalso. destruct (tick_entry state_index (sid, rem)); cbn in Hol; discriminate. }
    specialize (IH (done ++ option_list (tick_entry state_index (sid, rem))) stats1
                  (counters + (if String.eqb sid "S_RENT_ARREARS"
                                  && is_counter state_index "S_RENT_ARREARS"
                               then 1 else 0)) Hnd1).
    destruct (fold_result _ (Dict.keys rest) _) as [[[stats2 active2] counters2]|e].
    + destruct IH as (-> & -> & Hall). split; [|split].
      * cbn [omap list_omap]. rewrite <- app_assoc. f_equal.
        now destruct (tick_entry state_index (sid, rem)).
      * unfold Dict.mem at 2. cbn [Dict.get].
        rewrite (String.eqb_sym "S_RENT_ARREARS" sid).
        destruct (String.eqb_spec sid "S_RENT_ARREARS") as [Heq|Hne]; cbn [andb].
        -- assert (Hm : Dict.mem "S_RENT_ARREARS" rest = false).
           { destruct (Dict.mem "S_RENT_ARREARS" rest) eqn:Hm; [|reflexivity].
             apply dict_mem_keys in Hm. rewrite <- Heq in Hm. exfalso. exact (Hrest Hm). }
           rewrite Hm. cbn [andb].
           destruct (is_counter state_index "S_RENT_ARREARS"); lia.
        -- fold (Dict.mem "S_RENT_ARREARS" rest).
           destruct (Dict.mem "S_RENT_ARREARS" rest && _); lia.
      * intros sid' [<-|Hin]; [now rewrite Hidx|now apply Hall].
    + destruct IH as (sid' & -> & Hin & Hnone). exists sid'.
      split; [reflexivity|]. split; [now right|exact Hnone].
Qed.
End MonthlyTick.

Lemma apply_effects_range (s : Stats) (effects : list (string * Z)) :
  stats_in_range s -> stats_in_range (apply_effects s effects).
Proof.
  intros (Hh & Hs & Hf & Hr).
  pose proof (fun k Hk H => apply_effects_clamped effects s k Hk (or_intror H)) as Hc.
  unfold clamped_attrs in Hc.
  repeat split;
    first [ apply (Hc "health"); [cbn; tauto|exact Hh]
          | apply (Hc "stress"); [cbn; tauto|exact Hs]
          | apply (Hc "family"); [cbn; tauto|exact Hf]
          | apply (Hc "friendship"); [cbn; tauto|exact Hr] ].
Qed.

Lemma fold_result_invariant {A B : Type} (P : A -> Prop) (f : A -> B -> result A)
    (l : list B) :
  (forall a b a', P a -> f a b = Ok a' -> P a') ->
  forall a a', P a -> fold_result f l a = Ok a' -> P a'.
Proof.
  intros Hf. induction l as [|b rest IH]; intros a a' Ha; cbn [fold_result].
  - now intros [= <-].
  - destruct (f a b) as [a1|e] eqn:Hfa; [|discriminate]. cbn.
    apply IH. eapply Hf; eassumption.
Qed.

Section MonthlyTickTheorems.
Context {lm : Libm}.

Lemma apply_state_monthly_cases (stats : Stats) (active : Active) (counters : Z)
    (cfg : Config) (month : Z) (state_index : gmap string StateDef) :
  List.NoDup (Dict.keys active) ->
  match apply_state_monthly stats active counters cfg month state_index with
  | Ok (_, active', counters') =>
      active' = omap (tick_entry state_index) active
      /\ counters'
         = counters + (if Dict.mem "S_RENT_ARREARS" active
                          && is_counter state_index "S_RENT_ARREARS"
                       then 1 else 0)
      /\ forall sid, In sid (Dict.keys active) -> is_Some (state_index !! sid)
  | Raise e =>
      exists sid, e = KeyError sid /\ In sid (Dict.keys active)
                  /\ state_index !! sid = None
  end.
Proof.
  intros Hnd. unfold apply_state_monthly.
  exact (monthly_fold cfg month state_index active [] stats counters Hnd).
Qed.

Lemma apply_state_monthly_range (stats stats' : Stats) (active active' : Active)
    (counters counters' : Z) (cfg : Config) (month : Z)
    (state_index : gmap string StateDef) :
  stats_in_range stats ->
  apply_state_monthly stats active counters cfg month state_index
  = Ok (stats', active', counters') ->
  stats_in_range stats'.
Proof.
  intros Hr H. unfold apply_state_monthly in H.
  refine (fold_result_invariant (fun st => stats_in_range (fst (fst st)))
            (state_monthly_step cfg month state_index) (Dict.keys active) _
            (stats, active, counters) (stats', active', counters') Hr H).
  clear. intros [[s a] c] sid [[s1 a1] c1] Hs. cbn [fst] in *.
  unfold state_monthly_step.
  destruct (state_index !! sid) as [sdef|]; [|discriminate]. cbn [from_option mbind result_bind].
  set (s2 := if _ : bool then s else _).
  assert (Hs2 : stats_in_range s2)
    by (subst s2; destruct (_ && _); [exact Hs|now apply apply_effects_range]).
  destruct (String.eqb (sd_type sdef) "counter"); [now intros [= <- _ _]|].
  destruct (Dict.get sid a) as [[r|]|]; cbn [from_option mbind result_bind];
    [destruct (r - 1 <=? 0)| |discriminate]; now intros [= <- _ _].
Qed.
End MonthlyTickTheorems.

(** ** Invariants of a run *)

Section RunInvariant.
Context {lm : Libm} {rg : RandomGen}.
Variables (pools : gmap string (list Event)) (state_index : gmap string StateDef)
          (cfg : Config).

Lemma turn_inversion (month : Z) (st st' : RunState) :
  turn pools state_index cfg month st = Ok st' ->
  exists ev g1 ch g2 stats active counters,
    draw_event pools (rs_active st) (rs_seen_counts st) (rs_recent st) cfg
      state_tag_mult (rs_rng st) = Ok (ev, g1)
    /\ random_choice (ev_choices ev) g1 = Ok (ch, g2)
    /\ apply_choice (rs_stats st) ch (rs_active st) (rs_counters st) cfg month state_index
       = Ok (stats, active, counters)
    /\ st' = mkRun stats active counters (bump (ev_id ev) (rs_seen_counts st))
               (note_recent (rs_recent st) (ev_id ev))
               (bump (ev_id ev) (rs_event_counts st)) g2
               (DidTurn month (ev_id ev) :: rs_log st).
Proof.
  unfold turn. intros H.
  destruct (draw_event _ _ _ _ _ _ _) as [[ev g1]|e] eqn:Hd; [|discriminate].
  cbn in H.
  destruct (random_choice _ _) as [[ch g2]|e] eqn:Hrc; [|discriminate].
  cbn in H.
  destruct (apply_choice _ _ _ _ _ _ _) as [[[stats active] counters]|e] eqn:Hc;
    [|discriminate].
  cbn in H. injection H as <-.
  exists ev, g1, ch, g2, stats, active, counters.
  repeat split; first [reflexivity | assumption].
Qed.

(** [P] holds between months, [Q] inside a month. *)
Variables P Q : RunState -> Prop.
Hypothesis Q_P : forall st, Q st -> P st.
Hypothesis month_start :
  forall month st stats active counters,
    P st ->
    apply_state_monthly (monthly_passive (rs_stats st) cfg) (rs_active st)
      (rs_counters st) cfg month state_index = Ok (stats, active, counters) ->
    Q (mkRun stats active counters (rs_seen_counts st) (rs_recent st)
         (rs_event_counts st) (rs_rng st) (rs_log st)).
Hypothesis turn_keeps :
  forall month st st', Q st -> turn pools state_index cfg month st = Ok st' -> Q st'.
Hypothesis evaluate_keeps : forall st, Q st -> Q (snd (evaluate cfg st)).
Hypothesis rent_keeps :
  forall month st stats active,
    Q st ->
    month_end_rent (rs_stats st) (rs_active st) cfg month state_index = Ok (stats, active) ->
    Q (mkRun stats active (rs_counters st) (rs_seen_counts st) (rs_recent st)
         (rs_event_counts st) (rs_rng st) (DidRent month :: rs_log st)).

Lemma run_turns_keeps (month : Z) (n : nat) :
  forall (st st' : RunState) (dead : bool),
    Q st -> run_turns n pools state_index cfg month st = Ok (dead, st') -> Q st'.
Proof.
  induction n as [|n IH]; intros st st' dead Hq H.
  - cbn in H. injection H as _ <-. exact Hq.
  - cbn [run_turns] in H.
    destruct (turn pools state_index cfg month st) as [st1|e] eqn:Ht; [|discriminate].
    apply turn_keeps in Ht; [|exact Hq].
    cbn -[evaluate] in H.
    apply evaluate_keeps in Ht.
    destruct (evaluate cfg st1) as [d st2]. cbn [snd] in Ht.
    destruct d.
    + injection H as _ <-. exact Ht.
    + apply (IH _ _ _ Ht H).
Qed.

Lemma run_month_keeps (month : Z) (st st' : RunState) (dead : bool) :
  P st -> run_month pools state_index cfg month st = Ok (dead, st') -> Q st'.
Proof.
  unfold run_month. intros Hp H.
  destruct (apply_state_monthly _ _ _ _ _ _) as [[[stats active] counters]|e] eqn:Hm;
    [|discriminate].
  apply month_start in Hm; [|exact Hp].
  cbn in H.
  destruct (run_turns _ _ _ _ _ _) as [[d st1]|e] eqn:Hr; [|discriminate].
  cbn in H.
  apply run_turns_keeps in Hr; [|exact Hm].
  destruct d.
  - injection H as _ <-. exact Hr.
  - destruct (month_end_rent _ _ _ _ _) as [[stats2 active2]|e] eqn:Hrent; [|discriminate].
    cbn -[evaluate] in H.
    pose proof (rent_keeps month st1 stats2 active2 Hr Hrent) as Hq.
    apply evaluate_keeps in Hq.
    match type of H with Ok (evaluate cfg ?s) = _ => destruct (evaluate cfg s) as [d2 st2] end.
    injection H as _ <-. exact Hq.
Qed.

Lemma run_months_keeps (n : nat) :
  forall (month : Z) (st st' : RunState) (dead : bool),
    P st -> run_months n pools state_index cfg month st = Ok (dead, st') -> P st'.
Proof.
  induction n as [|n IH]; intros month st st' dead Hp H.
  - cbn in H. injection H as _ <-. exact Hp.
  - cbn [run_months] in H.
    destruct (run_month pools state_index cfg month st) as [[d st1]|e] eqn:Hm; [|discriminate].
    cbn in H.
    apply run_month_keeps in Hm; [|exact Hp].
    destruct d.
    + injection H as _ <-. now apply Q_P.
    + apply (IH _ _ _ _ (Q_P _ Hm) H).
Qed.
End RunInvariant.

Lemma tick_keys_unique (state_index : gmap string StateDef) (active : Active) :
  List.NoDup (Dict.keys active) ->
  List.NoDup (Dict.keys (omap (tick_entry state_index) active)).
Proof.
  assert (Hin : forall d k, In k (Dict.keys (omap (tick_entry state_index) d)) ->
                            In k (Dict.keys d)).
  { induction d as [|e rest IH]; intros k; cbn [omap list_omap Dict.keys map]; [tauto|].
    destruct (tick_entry state_index e) as [e'|] eqn:He.
    - cbn [map In]. intros [Heq|Hk]; [left|right; now apply IH].
      rewrite <- Heq. unfold tick_entry in He.
      destruct (is_counter _ _); [now injection He as <-|].
      destruct (snd e) as [r|]; [destruct (r - 1 <=? 0)|]; try discriminate;
        now injection He as <-.
    - intros Hk. right. now apply IH. }
  induction active as [|e rest IH]; cbn [omap list_omap Dict.keys map]; intros Hnd;
    [constructor|].
  inversion Hnd as [|? ? Hnot Hnd']; subst.
  destruct (tick_entry state_index e) as [e'|] eqn:He; [|now apply IH].
  cbn [map]. constructor; [|now apply IH].
  assert (fst e' = fst e) as ->.
  { unfold tick_entry in He. destruct (is_counter _ _); [now injection He as <-|].
    destruct (snd e) as [r|]; [destruct (r - 1 <=? 0)|]; try discriminate;
      now injection He as <-. }
  intros Hk. apply Hnot. now apply Hin.
Qed.

Section WellFormedRun.
Context {lm : Libm} {rg : RandomGen}.

Lemma monthly_passive_range (stats : Stats) (cfg : Config) :
  stats_in_range (monthly_passive stats cfg).
Proof.
  unfold monthly_passive, stats_in_range. destruct stats as [m h s f r].
  cbn -[py_round effective_gain clamp Qmult Qplus Qdiv Qminus Qopp inject_Z].
  pose proof clamp_range as Hc. repeat split; apply Hc.
Qed.

Lemma month_end_rent_keeps (stats stats' : Stats) (active active' : Active)
    (cfg : Config) (month : Z) (state_index : gmap string StateDef) :
  month_end_rent stats active cfg month state_index = Ok (stats', active') ->
  (stats_in_range stats -> stats_in_range stats')
  /\ (List.NoDup (Dict.keys active) -> List.NoDup (Dict.keys active')).
Proof.
  unfold month_end_rent, remove_state.
  destruct (state_index !! "S_RENT_DUE") as [due|]; cycle 1.
  { destruct (Dict.mem _ _); [destruct (_ <=? _)|]; cbn -[apply_effects];
      [discriminate| |discriminate].
    destruct (state_index !! "S_RENT_ARREARS"); discriminate. }
  destruct (Dict.mem "S_RENT_DUE" active).
  - destruct (_ <=? money stats).
    + pose proof (apply_effects_range stats [("money", - py_round (eco_rent (cfg_economy cfg) * cost_factor month cfg)); ("stress", -1)]) as Hrange.
      remember (apply_effects stats _) as paid eqn:Hpaid. clear Hpaid.
      cbn -[add_state Dict.pop]. intros [= <- <-].
      split; [exact Hrange|].
      intros Hnd. apply add_state_unique. now apply dict_pop_unique.
    + destruct (state_index !! "S_RENT_ARREARS") as [arrears|];
        cbn -[apply_effects add_state Dict.pop]; [|discriminate].
      intros [= <- <-]. split; [tauto|].
      intros Hnd. do 2 apply add_state_unique. now apply dict_pop_unique.
  - cbn -[apply_effects add_state Dict.pop]. intros [= <- <-]. split; [tauto|].
    apply add_state_unique.
Qed.

(** X19: every state the termination check of a run evaluates is well formed:
    health, stress, family and friendship are in [0, 100] (whatever the
    start values of the configuration), the ids of the active conditions are
    unique and the arrears counter is not negative; so are the conditions
    and the counter the run ends with. *)
Theorem run_well_formed (events : list Event) (states : list StateDef) (cfg : Config)
    (seed : Z) (g : rng) (dead : bool) (st : RunState) :
  run events states cfg seed g = Ok (dead, st) -> conditions_well_formed st.
Proof.
  unfold run, setup. intros H.
  destruct (index_states states !! "S_RENT_DUE") as [due|]; [|discriminate].
  cbn in H.
  destruct (index_states states !! "S_PAYCHECK") as [paycheck|]; [|discriminate].
  cbn in H.
  refine (run_months_keeps (build_pools events) (index_states states) cfg
            conditions_well_formed
            (fun st => conditions_well_formed st /\ stats_in_range (rs_stats st))
            _ _ _ _ _ _ _ _ _ _ _ H).
  - tauto.
  - intros month st0 stats active counters (Hlog & Hnd & Hc) Hm.
    pose proof (apply_state_monthly_range _ _ _ _ _ _ _ _ _
                  (monthly_passive_range (rs_stats st0) cfg) Hm) as Hr.
    pose proof (apply_state_monthly_cases (monthly_passive (rs_stats st0) cfg)
                  (rs_active st0) (rs_counters st0) cfg month (index_states states) Hnd)
      as Hcases.
    rewrite Hm in Hcases. destruct Hcases as (-> & -> & _).
    split; [|exact Hr]. split; [exact Hlog|]. split; [now apply tick_keys_unique|].
    cbn [rs_counters]. destruct (_ && _); lia.
  - intros month st0 st1 [(Hlog & Hnd & Hc) Hr] Ht.
    apply turn_inversion in Ht.
    destruct Ht as (ev & g1 & ch & g2 & stats & active & counters & _ & _ & Hch & ->).
    rewrite apply_choice_unfold in Hch.
    destruct (add_loop _ _ _) as [active1|e] eqn:Hadd; [|discriminate].
    injection Hch as <- <- <-.
    split; [|now apply apply_effects_range].
    split; [constructor; [exact I|exact Hlog]|]. split.
    + apply remove_all_unique. eapply add_loop_unique; eassumption.
    + cbn [rs_counters]. destruct (name_in _ _); lia.
  - intros st0 [(Hlog & Hnd & Hc) Hr]. cbn.
    split; [|exact Hr]. split; [|tauto]. constructor; [|exact Hlog]. cbn. tauto.
  - intros month st0 stats active [(Hlog & Hnd & Hc) Hr] Hrent.
    apply month_end_rent_keeps in Hrent. destruct Hrent as [Hr' Hnd'].
    split; [|now apply Hr']. split; [constructor; [exact I|exact Hlog]|].
    split; [now apply Hnd'|exact Hc].
  - split; [constructor|]. cbn [rs_active rs_counters]. split; [|lia].
    do 2 apply add_state_unique. constructor.
Qed.
End WellFormedRun.

Lemma drawn_ids_turn (month : Z) (id : string) (log : list log_entry) :
  drawn_ids (DidTurn month id :: log) = drawn_ids log ++ [id].
Proof. reflexivity. Qed.

Lemma occurrences_snoc (id x : string) (ids : list string) :
  occurrences id (ids ++ [x])
  = (occurrences id ids + (if String.eqb x id then 1 else 0))%nat.
Proof.
  unfold occurrences. rewrite List.filter_app, length_app. cbn [List.filter].
  destruct (String.eqb x id); reflexivity.
Qed.

Lemma occurrences_pos (id : string) (ids : list string) :
  (0 < occurrences id ids)%nat <-> In id ids.
Proof.
  unfold occurrences. induction ids as [|x xs IH]; cbn [List.filter In length]; [split; [lia|tauto]|].
  destruct (String.eqb_spec x id) as [->|Hne]; cbn [length].
  - split; [now left|lia].
  - rewrite IH. split; [now right|]. intros [Heq|Hin]; [congruence|exact Hin].
Qed.

Section Tallies.
Context {lm : Libm} {rg : RandomGen}.

Lemma run_tallies (events : list Event) (states : list StateDef) (cfg : Config)
    (seed : Z) (g : rng) (dead : bool) (st : RunState) :
  run events states cfg seed g = Ok (dead, st) -> tallies_count_draws st.
Proof.
  unfold run, setup. intros H.
  destruct (index_states states !! "S_RENT_DUE") as [due|]; [|discriminate].
  cbn in H.
  destruct (index_states states !! "S_PAYCHECK") as [paycheck|]; [|discriminate].
  cbn in H.
  refine (run_months_keeps (build_pools events) (index_states states) cfg
            tallies_count_draws tallies_count_draws
            _ _ _ _ _ _ _ _ _ _ _ H).
  - tauto.
  - intros month st0 stats active counters Hst _. exact Hst.
  - intros month st0 st1 [Heq Hcount] Ht.
    apply turn_inversion in Ht.
    destruct Ht as (ev & g1 & ch & g2 & stats & active & counters & _ & _ & _ & ->).
    split; cbn [rs_seen_counts rs_event_counts rs_log]; [now rewrite Heq|].
    intros id. rewrite drawn_ids_turn, occurrences_snoc. unfold bump.
    destruct (String.eqb_spec (ev_id ev) id) as [<-|Hne].
    + rewrite lookup_insert_eq, Hcount.
      destruct (occurrences (ev_id ev) (drawn_ids (rs_log st0))) as [|n] eqn:Hn.
      * reflexivity.
      * cbn [Nat.eqb option.from_option]. unfold id.
        replace (S n + 1 =? 0)%nat with false by (symmetry; apply Nat.eqb_neq; lia).
        apply (f_equal Some). cbn [option.from_option]. lia.
    + rewrite lookup_insert_ne by exact Hne. rewrite Nat.add_0_r. apply Hcount.
  - intros st0 Hst. exact Hst.
  - intros month st0 stats active Hst _. exact Hst.
  - split; [reflexivity|]. intros id. cbn. apply lookup_empty.
Qed.
End Tallies.

Section RunLength.
Context {lm : Libm} {rg : RandomGen}.
Variables (pools : gmap string (list Event)) (state_index : gmap string StateDef)
  (cfg : Config).

Lemma evaluate_length (st : RunState) :
  drawn_ids (rs_log (snd (evaluate cfg st))) = drawn_ids (rs_log st)
  /\ rent_cycles (rs_log (snd (evaluate cfg st))) = rent_cycles (rs_log st).
Proof. split; reflexivity. Qed.

Lemma run_turns_length (n : nat) :
  forall (month : Z) (st st' : RunState) (dead : bool),
    run_turns n pools state_index cfg month st = Ok (dead, st') ->
    exists k, (k <= n)%nat
      /\ length (drawn_ids (rs_log st')) = (length (drawn_ids (rs_log st)) + k)%nat
      /\ rent_cycles (rs_log st') = rent_cycles (rs_log st)
      /\ (if dead then (1 <= k)%nat else k = n).
Proof.
  induction n as [|n IH]; intros month st st' dead H.
  - injection H as <- <-. exists 0%nat. repeat split; lia.
  - cbn [run_turns] in H.
    destruct (turn pools state_index cfg month st) as [st1|e] eqn:Ht; [|discriminate].
    cbn [mbind result_bind] in H.
    pose proof (evaluate_length st1) as [Hd Hr].
    destruct (evaluate cfg st1) as [d st2] eqn:He. cbn [snd] in Hd, Hr.
    apply turn_inversion in Ht.
    destruct Ht as (ev & g1 & ch & g2 & stats & active & counters & _ & _ & _ & ->).
    cbn [rs_log] in Hd, Hr. rewrite drawn_ids_turn in Hd.
    change (rent_cycles (DidTurn month (ev_id ev) :: rs_log st))
      with (rent_cycles (rs_log st)) in Hr.
    destruct d.
    + injection H as <- <-. exists 1%nat.
      rewrite Hd, Hr, length_app. cbn [length]. repeat split; lia.
    + apply IH in H. destruct H as (k & Hk & Hlen & Hrent & Hdead).
      exists (S k). rewrite Hlen, Hrent, Hd, Hr, length_app. cbn [length].
      repeat split; try lia. destruct dead; lia.
Qed.

Lemma run_month_length (month : Z) (st st' : RunState) (dead : bool) :
  run_month pools state_index cfg month st = Ok (dead, st') ->
  let turns := Z.to_nat (cfg_turns_per_month cfg) in
  exists k, (k <= turns)%nat
    /\ length (drawn_ids (rs_log st')) = (length (drawn_ids (rs_log st)) + k)%nat
    /\ ((dead = true /\ rent_cycles (rs_log st') = rent_cycles (rs_log st))
        \/ (k = turns /\ rent_cycles (rs_log st') = (rent_cycles (rs_log st) + 1)%nat)).
Proof.
  intros H turns. unfold run_month in H.
  destruct (apply_state_monthly _ _ _ _ _ _) as [[[stats active] counters]|e];
    [|discriminate].
  cbn [mbind result_bind] in H.
  destruct (run_turns _ _ _ _ _ _) as [[d st1]|e] eqn:Hturns; [|discriminate].
  cbn [mbind result_bind] in H.
  apply run_turns_length in Hturns.
  destruct Hturns as (k & Hk & Hlen & Hrent & Hdead). cbn [rs_log] in Hlen, Hrent.
  destruct d.
  - injection H as <- <-. exists k. split; [exact Hk|]. split; [exact Hlen|].
    left. split; [reflexivity|exact Hrent].
  - destruct (month_end_rent _ _ _ _ _) as [[stats1 active1]|e]; [|discriminate].
    cbn [mbind result_bind] in H.
    match type of H with Ok (evaluate cfg ?s) = _ =>
      pose proof (evaluate_length s) as [Hd Hr]; destruct (evaluate cfg s) as [d st2]
    end.
    injection H as <- <-. cbn [snd rs_log] in Hd, Hr.
    change (drawn_ids (DidRent month :: rs_log st1)) with (drawn_ids (rs_log st1)) in Hd.
    change (rent_cycles (DidRent month :: rs_log st1))
      with (S (rent_cycles (rs_log st1))) in Hr.
    exists k. rewrite Hd, Hr, Hlen, Hrent. split; [lia|]. split; [lia|].
    right. split; lia.
Qed.

Lemma run_months_length (n : nat) :
  forall (month : Z) (st st' : RunState) (dead : bool),
    run_months n pools state_index cfg month st = Ok (dead, st') ->
    let turns := Z.to_nat (cfg_turns_per_month cfg) in
    let drawn := (length (drawn_ids (rs_log st')) - length (drawn_ids (rs_log st)))%nat in
    let rents := (rent_cycles (rs_log st') - rent_cycles (rs_log st))%nat in
    (length (drawn_ids (rs_log st)) <= length (drawn_ids (rs_log st')))%nat
    /\ (rent_cycles (rs_log st) <= rent_cycles (rs_log st'))%nat
    /\ (drawn <= n * turns)%nat /\ (rents <= n)%nat
    /\ (rents * turns <= drawn)%nat
    /\ (dead = false -> drawn = (n * turns)%nat /\ rents = n).
Proof.
  induction n as [|n IH]; intros month st st' dead H turns.
  - injection H as <- <-. cbn zeta. repeat split; lia.
  - cbn [run_months] in H.
    destruct (run_month pools state_index cfg month st) as [[d st1]|e] eqn:Hm;
      [|discriminate].
    cbn [mbind result_bind] in H.
    apply run_month_length in Hm. destruct Hm as (k & Hk & Hlen & Hrent).
    fold turns in Hk, Hrent.
    destruct d.
    + injection H as <- <-. cbn zeta. rewrite Hlen.
      destruct Hrent as [[_ Hrent]|[-> Hrent]]; rewrite Hrent;
        repeat split; first [nia | discriminate].
    + destruct Hrent as [[Hd _]|[-> Hrent]]; [discriminate|].
      apply IH in H. cbn zeta in H. fold turns in H.
      destruct H as (H1 & H2 & H3 & H4 & H5 & H6).
      cbn zeta. rewrite Hlen, Hrent in *.
      repeat split; try nia; destruct (H6 ltac:(assumption)); nia.
Qed.
End RunLength.

(** ** A catalog on which a run cannot fail *)

Lemma defined_in_Some (state_index : gmap string StateDef) (sid : string) :
  defined_in state_index sid = true <-> is_Some (state_index !! sid).
Proof.
  unfold defined_in. destruct (state_index !! sid); split; intros H;
    try reflexivity; try discriminate; [now eexists|].
  destruct H; discriminate.
Qed.

Lemma tick_keys_in (state_index : gmap string StateDef) (active : Active) (k : string) :
  In k (Dict.keys (omap (tick_entry state_index) active)) -> In k (Dict.keys active).
Proof.
  induction active as [|e rest IH]; cbn [omap list_omap Dict.keys map]; [tauto|].
  destruct (tick_entry state_index e) as [e'|] eqn:He.
  - cbn [map In]. intros [Heq|Hk]; [left|right; now apply IH].
    rewrite <- Heq. unfold tick_entry in He.
    destruct (is_counter _ _); [now injection He as <-|].
    destruct (snd e) as [r|]; [destruct (r - 1 <=? 0)|]; try discriminate;
      now injection He as <-.
  - intros Hk. right. now apply IH.
Qed.

Lemma add_state_keys_in (active : Active) (sdef : StateDef) (k : string) :
  In k (Dict.keys (add_state active sdef)) -> k = sd_id sdef \/ In k (Dict.keys active).
Proof.
  intros Hin. destruct (String.eqb_spec k (sd_id sdef)) as [->|Hne]; [now left|right].
  apply dict_mem_keys in Hin. apply dict_mem_keys. unfold Dict.mem in *.
  now rewrite add_state_other in Hin.
Qed.

Lemma remove_all_keys_in (removes : list string) (k : string) :
  forall active : Active,
    In k (Dict.keys (fold_left remove_state removes active)) -> In k (Dict.keys active).
Proof.
  induction removes as [|r rest IH]; intros active; cbn [fold_left]; [tauto|].
  intros Hin. apply IH in Hin. unfold remove_state in Hin.
  now apply dict_keys_pop_in in Hin.
Qed.

Lemma add_loop_keys_in (state_index : gmap string StateDef) (adds : list string)
    (k : string) :
  keyed_by_id state_index ->
  forall active active' : Active,
    add_loop state_index adds active = Ok active' ->
    In k (Dict.keys active') -> In k adds \/ In k (Dict.keys active).
Proof.
  intros Hkeyed. induction adds as [|sid rest IH]; intros active active' H Hin.
  - injection H as <-. now right.
  - unfold add_loop in H. cbn [fold_result] in H.
    destruct (state_index !! sid) as [sdef|] eqn:Hs; [|discriminate].
    cbn [from_option mbind result_bind] in H.
    destruct (IH _ _ H Hin) as [Hr|Ha]; [left; now right|].
    apply add_state_keys_in in Ha. destruct Ha as [->|Ha]; [|now right].
    left. left. symmetry. exact (Hkeyed _ _ Hs).
Qed.

Section Totality.
Context {lm : Libm} {rg : RandomGen}.
Variables (events : list Event) (state_index : gmap string StateDef) (cfg : Config).
Hypothesis keyed : keyed_by_id state_index.
Hypothesis closed : catalog_closed events state_index = true.

Lemma closed_tags (tag : string) :
  In tag TAGS -> exists ev, In ev events /\ ev_primary_tag ev = tag.
Proof.
  intros Hin. unfold catalog_closed in closed.
  apply andb_prop in closed. destruct closed as [H12 _].
  apply andb_prop in H12. destruct H12 as [H1 _].
  rewrite forallb_forall in H1. specialize (H1 _ Hin).
  apply existsb_exists in H1. destruct H1 as (ev & Hev & Htag).
  exists ev. split; [exact Hev|]. now apply String.eqb_eq in Htag.
Qed.

Lemma closed_choices (ev : Event) :
  In ev events ->
  ev_choices ev <> []
  /\ forall ch sid, In ch (ev_choices ev) -> In sid (ch_add_states ch) ->
                    is_Some (state_index !! sid).
Proof.
  intros Hin. unfold catalog_closed in closed.
  apply andb_prop in closed. destruct closed as [H12 _].
  apply andb_prop in H12. destruct H12 as [_ H2].
  rewrite forallb_forall in H2. specialize (H2 _ Hin).
  apply andb_prop in H2. destruct H2 as [Hne Hadds]. split.
  - destruct (ev_choices ev); [discriminate|discriminate].
  - intros ch sid Hch Hsid. rewrite forallb_forall in Hadds.
    specialize (Hadds _ Hch). rewrite forallb_forall in Hadds.
    apply defined_in_Some. now apply Hadds.
Qed.

Lemma closed_core :
  is_Some (state_index !! "S_RENT_DUE") /\ is_Some (state_index !! "S_PAYCHECK")
  /\ is_Some (state_index !! "S_RENT_ARREARS").
Proof.
  unfold catalog_closed in closed.
  apply andb_prop in closed. destruct closed as [_ H3].
  cbn [forallb] in H3.
  apply andb_prop in H3. destruct H3 as [Hd H3].
  apply andb_prop in H3. destruct H3 as [Hp H3].
  apply andb_prop in H3. destruct H3 as [Ha _].
  repeat split; now apply defined_in_Some.
Qed.

Lemma turn_total (month : Z) (st : RunState) :
  conditions_defined state_index (rs_active st) ->
  exists st', turn (build_pools events) state_index cfg month st = Ok st'
              /\ conditions_defined state_index (rs_active st').
Proof.
  intros [Hnd Hdef]. unfold turn.
  pose proof (draw_event_cases events (rs_active st) (rs_seen_counts st) (rs_recent st)
                cfg (rs_rng st)) as Hdraw.
  destruct (draw_event _ _ _ _ _ _ _) as [[ev g1]|e].
  2:{ destruct Hdraw as (tag & _ & Htag & Hnone).
      destruct (closed_tags tag Htag) as (ev & Hev & Heq). now destruct (Hnone ev Hev). }
  destruct Hdraw as [Hev _]. cbn [mbind result_bind].
  destruct (closed_choices ev Hev) as [Hne Hadds].
  destruct (random_choice_cases (ev_choices ev) g1) as [_ Hch].
  destruct (Hch Hne) as (ch & -> & Hin). cbn [mbind result_bind].
  rewrite apply_choice_unfold.
  pose proof (add_loop_cases state_index (ch_add_states ch) (rs_active st)) as Hadd.
  destruct (add_loop state_index (ch_add_states ch) (rs_active st)) as [active1|e] eqn:Hloop.
  2:{ destruct Hadd as (sid & _ & Hsid & Hnone).
      destruct (Hadds ch sid Hin Hsid) as [d Hd]. congruence. }
  cbn [mbind result_bind]. eexists. split; [reflexivity|]. cbn [rs_active]. split.
  - apply remove_all_unique. eapply add_loop_unique; eassumption.
  - intros sid Hsid. apply remove_all_keys_in in Hsid.
    destruct (add_loop_keys_in state_index _ sid keyed _ _ Hloop Hsid) as [Ha|Ha];
      [now apply Hadd|now apply Hdef].
Qed.

Lemma run_turns_total (n : nat) :
  forall (month : Z) (st : RunState),
    conditions_defined state_index (rs_active st) ->
    exists dead st',
      run_turns n (build_pools events) state_index cfg month st = Ok (dead, st')
      /\ conditions_defined state_index (rs_active st').
Proof.
  induction n as [|n IH]; intros month st Hst.
  - exists false, st. split; [reflexivity|exact Hst].
  - cbn [run_turns]. destruct (turn_total month st Hst) as (st1 & -> & Hst1).
    cbn [mbind result_bind].
    destruct (evaluate cfg st1) as [d st2] eqn:He.
    assert (Hst2 : conditions_defined state_index (rs_active st2)).
    { unfold evaluate in He. injection He as _ <-. exact Hst1. }
    destruct d; [exists true, st2; split; [reflexivity|exact Hst2]|].
    apply IH. exact Hst2.
Qed.

Lemma month_end_rent_total (stats : Stats) (active : Active) (month : Z) :
  conditions_defined state_index active ->
  exists stats' active',
    month_end_rent stats active cfg month state_index = Ok (stats', active')
    /\ conditions_defined state_index active'.
Proof.
  intros [Hnd Hdef]. destruct closed_core as ([due Hdue] & _ & [arrears Harr]).
  pose proof (keyed _ _ Hdue) as Hdid. pose proof (keyed _ _ Harr) as Haid.
  assert (Hadd : forall a d k, state_index !! k = Some d ->
            conditions_defined state_index a ->
            conditions_defined state_index (add_state a d)).
  { intros a d k Hd [Hn Hk]. split; [now apply add_state_unique|].
    intros sid Hsid. apply add_state_keys_in in Hsid.
    destruct Hsid as [->|Hsid]; [|now apply Hk].
    rewrite (keyed _ _ Hd). now exists d. }
  assert (Hpop : conditions_defined state_index (remove_state active "S_RENT_DUE")).
  { split; [now apply dict_pop_unique|].
    intros sid Hsid. apply Hdef. now apply dict_keys_pop_in in Hsid. }
  unfold month_end_rent. rewrite Hdue, Harr.
  destruct (Dict.mem "S_RENT_DUE" active); [destruct (_ <=? money stats)|];
    cbn [from_option mbind result_bind]; do 2 eexists; (split; [reflexivity|]).
  - eapply Hadd; eassumption.
  - eapply Hadd; [eassumption|]. eapply Hadd; eassumption.
  - eapply Hadd; [eassumption|]. now split.
Qed.

Lemma run_month_total (month : Z) (st : RunState) :
  conditions_defined state_index (rs_active st) ->
  exists dead st',
    run_month (build_pools events) state_index cfg month st = Ok (dead, st')
    /\ conditions_defined state_index (rs_active st').
Proof.
  intros [Hnd Hdef]. unfold run_month.
  pose proof (apply_state_monthly_cases (monthly_passive (rs_stats st) cfg)
                (rs_active st) (rs_counters st) cfg month state_index Hnd) as Hm.
  destruct (apply_state_monthly _ _ _ _ _ _) as [[[stats active] counters]|e].
  2:{ destruct Hm as (sid & _ & Hsid & Hnone). destruct (Hdef sid Hsid). congruence. }
  destruct Hm as (-> & _ & _). cbn [mbind result_bind].
  match goal with |- context [run_turns ?n ?p ?i ?c ?m ?s] =>
    destruct (run_turns_total n m s) as (d & st1 & -> & Hst1)
  end.
  { cbn [rs_active]. split; [now apply tick_keys_unique|].
    intros sid Hsid. apply Hdef. now apply tick_keys_in in Hsid. }
  cbn [mbind result_bind].
  destruct d; [exists true, st1; split; [reflexivity|exact Hst1]|].
  destruct (month_end_rent_total (rs_stats st1) (rs_active st1) month Hst1)
    as (stats' & active' & -> & Hrent).
  cbn [mbind result_bind].
  match goal with |- context [evaluate cfg ?s] =>
    destruct (evaluate cfg s) as [d st2] eqn:He
  end.
  exists d, st2. split; [reflexivity|].
  unfold evaluate in He. injection He as _ <-. exact Hrent.
Qed.

Lemma run_months_total (n : nat) :
  forall (month : Z) (st : RunState),
    conditions_defined state_index (rs_active st) ->
    exists dead st',
      run_months n (build_pools events) state_index cfg month st = Ok (dead, st').
Proof.
  induction n as [|n IH]; intros month st Hst.
  - exists false, st. reflexivity.
  - cbn [run_months]. destruct (run_month_total month st Hst) as (d & st1 & -> & Hst1).
    cbn [mbind result_bind].
    destruct d; [exists true, st1; reflexivity|]. apply IH. exact Hst1.
Qed.
End Totality.

(** X8: the index of the registry finds a definition by its id; of several
    definitions with one id it keeps the last of the list; and it holds no
    entry for an id exactly when no definition of the list has that id. *)
Theorem index_states_last_wins (states : list StateDef) (k : string) :
  index_states states !! k = List.find (fun s => String.eqb (sd_id s) k) (rev states)
  /\ (index_states states !! k = None <-> Forall (fun s => sd_id s <> k) states).
Proof.
  split; [apply index_states_find|]. rewrite index_states_find. split.
  - intros Hnone. apply List.Forall_forall. intros s Hin Heq.
    pose proof (List.find_none _ _ Hnone s (proj1 (in_rev _ _) Hin)) as Hf.
    cbn beta in Hf. apply String.eqb_neq in Hf. contradiction.
  - intros Hall. destruct (List.find _ _) as [s|] eqn:Hfind; [|reflexivity].
    apply List.find_some in Hfind. destruct Hfind as [Hin Heq].
    apply in_rev in Hin. rewrite List.Forall_forall in Hall.
    apply String.eqb_eq in Heq. now destruct (Hall s Hin).
Qed.

(** X11: [build_pools] partitions the catalog by tag: the pool of a tag is the
    events of that tag in catalog order, a tag has a pool exactly when some
    event carries it, and no pool is empty. *)
Theorem build_pools_partition (events : list Event) (tag : string) :
  default [] (build_pools events !! tag) = List.filter (has_tag tag) events
  /\ (is_Some (build_pools events !! tag)
      <-> exists ev, In ev events /\ ev_primary_tag ev = tag)
  /\ build_pools events !! tag <> Some [].
Proof.
  rewrite build_pools_lookup.
  destruct (List.filter (has_tag tag) events) as [|ev pool] eqn:Hf.
  - split; [reflexivity|]. split; [|discriminate]. split.
    + intros [x Hx]. discriminate.
    + intros (ev & Hin & Htag). exfalso.
      assert (Hev : In ev (List.filter (has_tag tag) events)).
      { apply filter_In. split; [exact Hin|]. now apply String.eqb_eq. }
      rewrite Hf in Hev. exact Hev.
  - split; [reflexivity|]. split; [|discriminate]. split; [|now eexists].
    intros _. exists ev.
    assert (Hev : In ev (List.filter (has_tag tag) events)) by (rewrite Hf; now left).
    apply filter_In in Hev. destruct Hev as [Hin Htag].
    split; [exact Hin|]. now apply String.eqb_eq.
Qed.

Section RentErrors.
Context {lm : Libm}.

End RentErrors.

Section MonthlyTickTheorem.
Context {lm : Libm}.

End MonthlyTickTheorem.

Section RunTheorems.
Context {lm : Libm} {rg : RandomGen}.

(** X20: the two tallies of a run agree and count its draws: for every event
    id the count is the number of turns that drew it, an id has an entry
    exactly when it was drawn, and the number of entries (the [uniq] that
    [simulate_one] returns) is the number of distinct ids drawn. *)
Theorem tallies_count_the_draws (events : list Event) (states : list StateDef)
    (cfg : Config) (seed : Z) (g : rng) (dead : bool) (st : RunState) :
  run events states cfg seed g = Ok (dead, st) ->
  let draws := drawn_ids (rs_log st) in
  rs_seen_counts st = rs_event_counts st
  /\ (forall id, default 0 (rs_event_counts st !! id) = Z.of_nat (occurrences id draws))
  /\ (forall id, is_Some (rs_event_counts st !! id) <-> In id draws)
  /\ size (rs_seen_counts st) = length (remove_dups draws).
Proof.
  intros H draws. apply run_tallies in H. destruct H as [Heq Hcount]. fold draws in Hcount.
  assert (Hsome : forall id, is_Some (rs_event_counts st !! id) <-> In id draws).
  { intros id. rewrite Hcount, <- occurrences_pos.
    destruct (occurrences id draws) as [|n]; cbn [Nat.eqb]; split; intros Hx;
      first [lia | now eexists | destruct Hx; discriminate]. }
  split; [exact Heq|]. split; [|split; [exact Hsome|]].
  - intros id. rewrite Hcount.
    destruct (occurrences id draws) as [|n]; reflexivity.
  - rewrite Heq, <- size_dom.
    assert (Hdom : dom (rs_event_counts st) = list_to_set (remove_dups draws)).
    { apply set_eq. intros id.
      rewrite elem_of_dom, Hsome, elem_of_list_to_set, elem_of_remove_dups.
      symmetry. apply list_elem_of_In. }
    rewrite Hdom. apply size_list_to_set, NoDup_remove_dups.
Qed.

(** X21: a run draws at most max_months * turns_per_month events and goes
    through at most max_months rent cycles, each of them after a full month
    of turns; a run that lasts to the cap draws exactly that many events
    and goes through exactly max_months rent cycles.  A cap or a number of
    turns that is not positive counts as 0. *)
Theorem run_length (events : list Event) (states : list StateDef) (cfg : Config)
    (seed : Z) (g : rng) (dead : bool) (st : RunState) :
  run events states cfg seed g = Ok (dead, st) ->
  let months := Z.to_nat (cfg_max_months cfg) in
  let turns := Z.to_nat (cfg_turns_per_month cfg) in
  let drawn := length (drawn_ids (rs_log st)) in
  let rents := rent_cycles (rs_log st) in
  (drawn <= months * turns)%nat /\ (rents <= months)%nat
  /\ (rents * turns <= drawn)%nat
  /\ (dead = false -> drawn = (months * turns)%nat /\ rents = months).
Proof.
  unfold run, setup. intros H.
  destruct (index_states states !! "S_RENT_DUE") as [due|]; [|discriminate].
  cbn [from_option mbind result_bind] in H.
  destruct (index_states states !! "S_PAYCHECK") as [paycheck|]; [|discriminate].
  cbn [from_option mbind result_bind] in H.
  apply run_months_length in H. cbn zeta in H. cbn [rs_log] in H.
  change (drawn_ids []) with (@nil string) in H.
  change (rent_cycles []) with 0%nat in H. cbn [length] in H.
  rewrite !Nat.sub_0_r in H. cbn zeta.
  destruct H as (_ & _ & H1 & H2 & H3 & H4). repeat split; try assumption;
    now apply H4.
Qed.

(** X18: a run needs the rent-due and the paycheck condition: when the
    registry has no definition with the id "S_RENT_DUE", [simulate_one]
    fails with a [KeyError] for it, whatever the events; when it has that
    one but none with the id "S_PAYCHECK", it fails with a [KeyError] for
    that. *)
Theorem simulate_one_needs_core_states (events : list Event) (states : list StateDef)
    (cfg : Config) (seed : Z) (g : rng) :
  (Forall (fun s => sd_id s <> "S_RENT_DUE") states ->
   simulate_one events states cfg seed g = Raise (KeyError "S_RENT_DUE"))
  /\ (Exists (fun s => sd_id s = "S_RENT_DUE") states ->
      Forall (fun s => sd_id s <> "S_PAYCHECK") states ->
      simulate_one events states cfg seed g = Raise (KeyError "S_PAYCHECK")).
Proof.
  assert (Hnone : forall k, Forall (fun s => sd_id s <> k) states ->
                            index_states states !! k = None).
  { intros k Hall. rewrite index_states_find.
    destruct (List.find _ _) as [s|] eqn:Hfind; [|reflexivity].
    apply List.find_some in Hfind. destruct Hfind as [Hin Heq].
    apply in_rev in Hin. rewrite List.Forall_forall in Hall.
    apply String.eqb_eq in Heq. now destruct (Hall s Hin). }
  unfold simulate_one, run, setup. split.
  - intros Hall. now rewrite (Hnone _ Hall).
  - intros Hex Hall. rewrite (Hnone _ Hall).
    destruct (index_states states !! "S_RENT_DUE") as [due|] eqn:Hdue; [reflexivity|].
    exfalso. rewrite index_states_find in Hdue.
    apply List.Exists_exists in Hex. destruct Hex as (s & Hin & Hid).
    pose proof (List.find_none _ _ Hdue s (proj1 (in_rev _ _) Hin)) as Hf.
    cbn beta in Hf. apply String.eqb_neq in Hf. contradiction.
Qed.


(** X23: the loop of [main] over [n] runs: the number of wins grows by at
    least 0 and at most [n] (so the win rate lies between 0 and 1), and
    the list of unique-event counts gets exactly one entry per run, after
    the entries it had. *)
Theorem monte_carlo_totals (n : nat) :
  forall (i : Z) (events : list Event) (states : list StateDef) (cfg : Config)
         (seed wins : Z) (uniqs : list nat) (total : gmap string Z) (g : rng)
         (wins' : Z) (uniqs' : list nat) (total' : gmap string Z) (g' : rng),
    monte_carlo n i events states cfg seed (wins, uniqs, total) g
    = Ok ((wins', uniqs', total'), g') ->
    wins <= wins' <= wins + Z.of_nat n
    /\ exists new, uniqs' = uniqs ++ new /\ length new = n.
Proof.
  induction n as [|n IH]; intros i events states cfg seed wins uniqs total g
    wins' uniqs' total' g' H.
  - injection H as <- <- <- <-. split; [lia|]. exists []. now rewrite app_nil_r.
  - cbn [monte_carlo] in H.
    destruct (simulate_one events states cfg (seed + i) g) as [[[[ok uniq] ec] g1]|e];
      [|discriminate].
    cbn [mbind result_bind] in H. apply IH in H.
    destruct H as [Hw (new & -> & Hlen)]. split; [destruct ok; lia|].
    exists (uniq :: new). rewrite <- app_assoc. split; [reflexivity|].
    cbn [length]. now rewrite Hlen.
Qed.
End RunTheorems.

Lemma dict_set_unique {V : Type} (k : string) (v : V) (d : list (string * V)) :
  List.NoDup (Dict.keys d) -> List.NoDup (Dict.keys (Dict.set k v d)).
Proof.
  intros Hnd. rewrite dict_keys_set. destruct (Dict.mem k d) eqn:Hmem; [exact Hnd|].
  apply nodup_keys_snoc; [exact Hnd|]. intros Hin. apply dict_mem_keys in Hin. congruence.
Qed.

Lemma sum_deltas_get (k : string) (d : list (string * Z)) :
  List.NoDup (Dict.keys d) -> sum_deltas k d = default 0 (Dict.get k d).
Proof.
  induction d as [|[k' v'] rest IH]; cbn [Dict.keys map fst]; intros Hnd; [reflexivity|].
  inversion Hnd as [|? ? Hnot Hnd']; subst.
  cbn [sum_deltas fold_right Dict.get fst snd]. fold (sum_deltas k rest).
  rewrite (String.eqb_sym k k').
  destruct (String.eqb_spec k' k) as [->|Hne]; [|now apply IH].
  rewrite (IH Hnd'), (dict_get_None_keys k rest Hnot). cbn. lia.
Qed.

Section ChoiceMoney.
Context {lm : Libm}.

Lemma get_money_scaled (stats : Stats) (cfg : Config) (d : list (string * Z)) :
  Dict.get "money" (map (scale_entry stats cfg) d) = Dict.get "money" d.
Proof.
  induction d as [|[k v] rest IH]; [reflexivity|].
  cbn [map scale_entry Dict.get fst snd].
  destruct (String.eqb_spec "money" k) as [<-|Hne]; [reflexivity|exact IH].
Qed.

End ChoiceMoney.

(** * Worked examples *)

(** ** Weighted choice *)

(** The draw 0.4 of the weights 1, 2, 3 gives 2.4: candidate "b" is the
    first whose cumulative weight, 3, reaches it. *)
Lemma weighted_choice_rule_witness :
  @weighted_choice zero_gen string ["a"; "b"; "c"] [1; 2; 3]%Q [0.4%Q] = Ok ("b", []).
Proof.
  apply (proj1 (@weighted_choice_rule zero_gen string ["a"; "b"; "c"] [1; 2; 3]%Q [0.4%Q])
           1%nat "b").
  - reflexivity.
  - cbn. lia.
  - vm_compute. discriminate.
  - intros j Hj. assert (j = 0%nat) as -> by lia. vm_compute. intros H. now apply H.
Defined.

(** C1, counterexample: a pool whose weights are all zero yields its first
    candidate, not its last. *)
Lemma weighted_choice_zero_pool_first :
  @weighted_choice zero_gen string ["first"; "last"] [0; 0]%Q [0.5%Q] = Ok ("first", [])
  /\ last ["first"; "last"] = Some "last".
Proof. split; reflexivity. Qed.

(** ** Stat ledger *)

(** Health starts at 150 and is named with a delta of -100000: it ends at 0;
    money goes from 10 to -15. *)
Lemma apply_effects_bounds_witness :
  0 <= attr "health" (apply_effects (mkStats 10 150 50 50 50)
                        [("health", -100000); ("money", -25)]) <= 100
  /\ money (apply_effects (mkStats 10 150 50 50 50) [("health", -100000); ("money", -25)])
     = -15.
Proof.
  destruct (apply_effects_bounds (mkStats 10 150 50 50 50)
              [("health", -100000); ("money", -25)] "health")
    as (Hrange & _ & Hmoney).
  - cbn. auto.
  - left. cbn. auto.
  - split; [exact Hrange|exact Hmoney].
Defined.

(** C2, counterexample: an attribute the effects do not name keeps its
    value, in range or not. *)
Lemma apply_effects_keeps_unnamed :
  health (apply_effects (mkStats 0 150 50 50 50) [("money", 5)]) = 150.
Proof. reflexivity. Qed.

(** ** Termination *)

Lemma run_stops_witness :
  exists st,
    @run example_libm zero_gen ex_events ex_states (ex_cfg (-10000) 1 5 1 1) 7 [] = Ok (true, st)
    /\ log_ended (ex_cfg (-10000) 1 5 1 1) st.
Proof.
  destruct (@run_stops_at_threshold example_libm zero_gen ex_events ex_states
              (ex_cfg (-10000) 1 5 1 1) 7 (@nil Q) (@nil Q) false 1%nat (bump "E1" ∅))
    as (_ & st & Hrun & _ & _ & Hend).
  - vm_compute. reflexivity.
  - exists st. split; [exact Hrun|exact Hend].
Defined.



(** ** Event pools *)

(** With no event at all, the first draw selects the tag "job" and fails at
    the pool lookup. *)
Lemma pools_checked_witness :
  @draw_event example_libm zero_gen (build_pools []) [] ∅ [] (ex_cfg 0 1 5 1 1)
    state_tag_mult (@nil Q)
  = Raise (KeyError "job").
Proof.
  apply (proj2 (proj2 (@pools_checked_at_draw example_libm zero_gen []))
           [] ∅ [] (ex_cfg 0 1 5 1 1) (@nil Q) "job" (@nil Q)).
  vm_compute. reflexivity.
Defined.

(** C7, counterexample: the catalog has no event of the tag "car" (nor of
    six other tags), every tag has weight at least 0.75, and yet the run
    starts, draws an event and returns [True]: nothing fails at startup.
    With a second turn whose draw selects the tag "debt", the same catalog
    fails at that draw, after the first turn went through. *)
Lemma empty_pool_run_completes :
  @simulate_one example_libm zero_gen ex_events ex_states (ex_cfg 5000 1 5 1 1) 7 []
  = Ok ((true, 1%nat, bump "E1" ∅), [])
  /\ build_pools ex_events !! "car" = None
  /\ Dict.get "car" (tag_weights [("S_RENT_DUE", None); ("S_PAYCHECK", None)] state_tag_mult)
     = Some 1%Q
  /\ @simulate_one example_libm (scripted (fun _ => [0; 0; 0; 0.2]%Q)) ex_events ex_states
       (ex_cfg 5000 1 5 1 2) 7 []
     = Raise (KeyError "debt").
Proof. repeat split; vm_compute; reflexivity. Qed.

(** ** Rent cycle *)



(** ** Recency window *)

Lemma recency_penalty_witness :
  candidate_weight (lm := example_libm) ∅
    (recent_set_of (fold_left note_recent ["E0"; "E1"] []) (ex_cfg 0 1 5 1 1))
    (ex_cfg 0 1 5 1 1) (idle_event "E0")
  = (1 / float_pow (Libm := example_libm) (1 + inject_Z 0) 0 * 0.5)%Q.
Proof.
  apply (proj1 (proj2 (@recency_penalty_capped example_libm zero_gen (ex_cfg 0 1 5 1 1) ∅
                         ["E0"; "E1"] (idle_event "E0")))).
  split; [reflexivity|]. vm_compute. left. reflexivity.
Defined.

(** C8, counterexample: with a window of 41, a run draws "E0" and then "E1"
    40 times.  "E0" is among the last 41 drawn ids, but the list the run
    keeps holds "E1" 40 times, and the weight of "E0" at the next draw is
    its base weight 1, without the penalty 0.5. *)
Lemma recency_window_cut_at_40 :
  window_probe (lm := example_libm) (ex_cfg 0 1 41 1 41) (idle_event "E0")
    (@run example_libm (scripted (fun _ => first_then_other))
       [idle_event "E0"; idle_event "E1"] ex_states (ex_cfg 0 1 41 1 41) 7 [])
  = Some ("E0" :: repeat "E1" 40, repeat "E1" 40, 1%Q)
  /\ In "E0" (last_n 41 ("E0" :: repeat "E1" 40)).
Proof. split; [vm_compute; reflexivity | vm_compute; left; reflexivity]. Qed.

(** ** The loan penalty on the two scaling paths *)

(** C5: with a high-interest loan active, a money gain of 2 and the
    positive-money multiplier 2, the choice path rounds 2 * 2 * 0.85 = 3.4
    to 3, and the monthly path rounds 2 * 0.85 = 1.7 to 2 first and then
    2 * 2 = 4 to 4. *)
Theorem loan_penalty_paths_differ :
  choice_effects (lm := example_libm) (mkStats 0 70 30 60 60) gain_choice loan_active
    (ex_cfg 0 1 5 1 1) 0 = [("money", 3)]
  /\ monthly_effects (lm := example_libm) (mkStats 0 70 30 60 60) loan_state loan_active
       (ex_cfg 0 1 5 1 1) 0 = [("money", 4)]
  /\ apply_choice (lm := example_libm) (mkStats 0 70 30 60 60) gain_choice loan_active 0
       (ex_cfg 0 1 5 1 1) 0 (index_states [loan_state])
     = Ok (mkStats 3 70 30 60 60, loan_active, 0)
  /\ apply_state_monthly (lm := example_libm) (mkStats 0 70 30 60 60) loan_active 0
       (ex_cfg 0 1 5 1 1) 0 (index_states [loan_state])
     = Ok (mkStats 4 70 30 60 60, loan_active, 0).
Proof. repeat split; vm_compute; reflexivity. Qed.

(** ** Further worked examples *)

Lemma add_state_repeated_witness :
  transient injured_state 3
  /\ Dict.get "S_INJURED" (add_times 2 [("S_PAYCHECK", None)] injured_state) = Some (Some 6)
  /\ Dict.get "S_PAYCHECK" (add_times 2 [("S_PAYCHECK", None)] injured_state) = Some None.
Proof.
  assert (Ht : transient injured_state 3) by (split; reflexivity).
  destruct (add_state_repeated 1 [("S_PAYCHECK", None)] injured_state 3 Ht eq_refl)
    as [Hsame Hother].
  split; [exact Ht|]. split; [exact Hsame|].
  rewrite Hother; [reflexivity|discriminate].
Defined.

Lemma remove_state_round_trip_witness :
  List.NoDup (Dict.keys [("S_RENT_DUE", @None Z); ("S_PAYCHECK", None)])
  /\ remove_state (add_state [("S_RENT_DUE", None); ("S_PAYCHECK", None)] injured_state)
       "S_INJURED"
     = [("S_RENT_DUE", None); ("S_PAYCHECK", None)].
Proof.
  assert (Hnd : List.NoDup (Dict.keys [("S_RENT_DUE", @None Z); ("S_PAYCHECK", None)]))
    by (cbn [Dict.keys map fst]; apply NoDup_ListNoDup, (bool_decide_unpack _); vm_compute; exact I).
  split; [exact Hnd|].
  apply (remove_state_round_trip [("S_RENT_DUE", None); ("S_PAYCHECK", None)]
           injured_state "S_RENT_DUE" Hnd).
  reflexivity.
Defined.

Lemma apply_effects_by_key_witness :
  List.NoDup (Dict.keys [("stress", 90); ("money", -50)])
  /\ stats_get "stress" (apply_effects (mkStats 100 70 30 60 60)
                           [("stress", 90); ("money", -50)]) = Some 100
  /\ apply_effects (mkStats 100 70 30 60 60) [("money", -50); ("stress", 90)]
     = apply_effects (mkStats 100 70 30 60 60) [("stress", 90); ("money", -50)].
Proof.
  assert (Hnd : List.NoDup (Dict.keys [("stress", 90); ("money", -50)]))
    by (cbn [Dict.keys map fst]; apply NoDup_ListNoDup, (bool_decide_unpack _); vm_compute; exact I).
  destruct (apply_effects_by_key (mkStats 100 70 30 60 60)
              [("stress", 90); ("money", -50)] Hnd) as [Hkey Hperm].
  split; [exact Hnd|]. split.
  - exact (Hkey "stress" 30 eq_refl).
  - apply Hperm. apply perm_swap.
Defined.


Lemma apply_choice_conditions_witness :
  exists stats' active' counters',
    apply_choice (lm := example_libm) (mkStats 100 70 30 60 60) arrears_choice
      [("S_RENT_DUE", None); ("S_PAYCHECK", None)] 2 (ex_cfg 100 1 5 1 1) 0
      (index_states ex_states) = Ok (stats', active', counters')
    /\ Dict.get "S_RENT_DUE" active' = None
    /\ Dict.mem "S_RENT_ARREARS" active' = true
    /\ Dict.get "S_PAYCHECK" active' = Some None
    /\ counters' = 2.
Proof.
  destruct (apply_choice (lm := example_libm) (mkStats 100 70 30 60 60) arrears_choice
              [("S_RENT_DUE", None); ("S_PAYCHECK", None)] 2 (ex_cfg 100 1 5 1 1) 0
              (index_states ex_states)) as [[[stats' active'] counters']|e] eqn:Hch;
    [|vm_compute in Hch; discriminate].
  assert (Hnd : List.NoDup (Dict.keys [("S_RENT_DUE", @None Z); ("S_PAYCHECK", None)]))
    by (cbn [Dict.keys map fst]; apply NoDup_ListNoDup, (bool_decide_unpack _); vm_compute; exact I).
  destruct (@apply_choice_conditions example_libm _ _ _ _ _ _ _ _ _ _
              (index_states_id ex_states) Hnd Hch) as (_ & Hrem & Hadd & Hkeep & Hc).
  exists stats', active', counters'. split; [reflexivity|].
  split; [apply Hrem; now left|].
  split; [apply Hadd; [now left|]; intros [Hx|[]]; discriminate|].
  split; [|exact Hc].
  rewrite Hkeep; [reflexivity| |]; intros [Hx|[]]; discriminate.
Defined.


Lemma run_well_formed_witness :
  exists dead st,
    @run example_libm zero_gen ex_events ex_states (ex_cfg 5000 2 5 2 2) 7 []
    = Ok (dead, st)
    /\ conditions_well_formed st.
Proof.
  destruct (@run example_libm zero_gen ex_events ex_states (ex_cfg 5000 2 5 2 2) 7 [])
    as [[dead st]|e] eqn:Hrun; [|vm_compute in Hrun; discriminate].
  exists dead, st. split; [reflexivity|].
  exact (@run_well_formed example_libm zero_gen _ _ _ _ _ _ _ Hrun).
Defined.

Lemma tallies_count_the_draws_witness :
  exists dead st,
    @run example_libm zero_gen ex_events ex_states (ex_cfg 5000 2 5 2 2) 7 []
    = Ok (dead, st)
    /\ size (rs_seen_counts st) = length (remove_dups (drawn_ids (rs_log st))).
Proof.
  destruct (@run example_libm zero_gen ex_events ex_states (ex_cfg 5000 2 5 2 2) 7 [])
    as [[dead st]|e] eqn:Hrun; [|vm_compute in Hrun; discriminate].
  exists dead, st. split; [reflexivity|].
  exact (proj2 (proj2 (proj2
           (@tallies_count_the_draws example_libm zero_gen _ _ _ _ _ _ _ Hrun)))).
Defined.

Lemma run_length_witness :
  exists dead st,
    @run example_libm zero_gen ex_events ex_states (ex_cfg 5000 2 5 2 2) 7 []
    = Ok (dead, st)
    /\ (length (drawn_ids (rs_log st)) <= 2 * 2)%nat.
Proof.
  destruct (@run example_libm zero_gen ex_events ex_states (ex_cfg 5000 2 5 2 2) 7 [])
    as [[dead st]|e] eqn:Hrun; [|vm_compute in Hrun; discriminate].
  exists dead, st. split; [reflexivity|].
  exact (proj1 (@run_length example_libm zero_gen _ _ _ _ _ _ _ Hrun)).
Defined.


Lemma monte_carlo_totals_witness :
  exists wins' uniqs' total' g',
    @monte_carlo example_libm zero_gen 3 0 ex_events ex_states (ex_cfg 5000 2 5 1 1) 7
      (0, [], ∅) [] = Ok ((wins', uniqs', total'), g')
    /\ 0 <= wins' <= 3.
Proof.
  destruct (@monte_carlo example_libm zero_gen 3 0 ex_events ex_states
              (ex_cfg 5000 2 5 1 1) 7 (0, [], ∅) [])
    as [[[[wins' uniqs'] total'] g']|e] eqn:Hmc; [|vm_compute in Hmc; discriminate].
  exists wins', uniqs', total', g'. split; [reflexivity|].
  exact (proj1 (@monte_carlo_totals example_libm zero_gen _ _ _ _ _ _ _ _ _ _ _ _ _ _ Hmc)).
Defined.

